(** * ORD scraper and string helpers: a shallow embedding

    This development models two Python sources:
    - [OLASIMAN_ORD/ord_scraper.py]: keyword tables, identifier classifiers,
      the tabular and free-text passes of the HTML extractor, the
      structured-record aggregator, the task id of a submitted query, the
      poll loop with its sleeps, and the target selection and per-dataset
      loop of [main];
    - [Exam2/helpers/string_utils.py]: [shout].

    Text is modelled as [string] (a list of 8-bit characters), so case
    conversion and the character classes of the regular expressions are the
    ASCII ones.  Python dictionaries are [gmap]s; a [defaultdict] read of a
    missing key is a lookup with a default.  Network calls, the protobuf
    decoder and the HTML parser are outside the source: their results are
    inputs of the model. *)

From Stdlib Require Import ZArith QArith Ascii String List Bool DecimalString Lqa.
From stdpp Require Import base option list gmap strings.

Local Open Scope list_scope.
Local Open Scope string_scope.

(* ================================================================== *)
(** * Text primitives *)
(* ================================================================== *)

Module Text.

(** [str.lower] and [str.upper] on one character. *)
Definition lower_char (c : ascii) : ascii :=
  let n := N_of_ascii c in
  if ((65 <=? n) && (n <=? 90))%N then ascii_of_N (n + 32) else c.


Fixpoint lower (s : string) : string :=
  match s with
  | EmptyString => EmptyString
  | String c s' => String (lower_char c) (lower s')
  end.


(** [k in s] for strings: [k] occurs as a contiguous substring of [s]. *)
Fixpoint contains (k s : string) : bool :=
  String.prefix k s ||
  match s with
  | EmptyString => false
  | String _ s' => contains k s'
  end.

(** [any(k in s for k in kws)]. *)
Definition any_in (kws : list string) (s : string) : bool :=
  existsb (fun k => contains k s) kws.

(** [v in (a, b, ...)] for a tuple of strings. *)
Definition in_tuple (v : string) (t : list string) : bool :=
  existsb (String.eqb v) t.

(** [str(n)] for an integer. *)
Definition str_of_Z (n : Z) : string := NilZero.string_of_int (Z.to_int n).

(** Python truthiness of a string and of an optional string. *)
Definition truthy (s : string) : bool := negb (String.eqb s "").

Definition truthy_opt (o : option string) : bool :=
  match o with Some s => truthy s | None => false end.

End Text.

(* ================================================================== *)
(** * Regular expressions *)
(* ================================================================== *)

Module Re.

(** The fragment of [re] syntax that the scraper's patterns use.  A
    character set is a boolean predicate, which covers literals, classes
    such as [[0-9 .%]], [\d], [.] and letters under [(?i)]. *)
Inductive regex : Type :=
| Void : regex
| Eps : regex
| Set_ : (ascii -> bool) -> regex
| Cat : regex -> regex -> regex
| Alt : regex -> regex -> regex
| Star : regex -> regex.

Definition chr (c : ascii) : regex := Set_ (Ascii.eqb c).

(** A letter under the [(?i)] flag. *)
Definition chr_i (c : ascii) : regex :=
  Set_ (fun x => Ascii.eqb (Text.lower_char x) (Text.lower_char c)).

(** [.] matches everything but a newline. *)
Definition dot : regex := Set_ (fun x => negb (Ascii.eqb x "010"%char)).

(** [\d]. *)
Definition digit : regex :=
  Set_ (fun x => let n := N_of_ascii x in ((48 <=? n) && (n <=? 57))%N).

(** [[abc]]: one character out of those of [s]. *)
Definition one_of (s : string) : regex :=
  Set_ (fun x => existsb (Ascii.eqb x) (list_ascii_of_string s)).

Fixpoint lit (s : string) : regex :=
  match s with
  | EmptyString => Eps
  | String c s' => Cat (chr c) (lit s')
  end.

Definition plus (r : regex) : regex := Cat r (Star r).
Definition opt (r : regex) : regex := Alt r Eps.

Fixpoint alts (rs : list regex) : regex :=
  match rs with
  | [] => Void
  | [r] => r
  | r :: rs' => Alt r (alts rs')
  end.

(** The language of a pattern. *)
Inductive Matches : regex -> string -> Prop :=
| MEps : Matches Eps ""
| MSet p c : p c = true -> Matches (Set_ p) (String c "")
| MCat r1 r2 s1 s2 : Matches r1 s1 -> Matches r2 s2 -> Matches (Cat r1 r2) (s1 ++ s2)
| MAltL r1 r2 s : Matches r1 s -> Matches (Alt r1 r2) s
| MAltR r1 r2 s : Matches r2 s -> Matches (Alt r1 r2) s
| MStar0 r : Matches (Star r) ""
| MStarS r s1 s2 : Matches r s1 -> Matches (Star r) s2 -> Matches (Star r) (s1 ++ s2).

(** Matching by derivatives. *)
Fixpoint nullable (r : regex) : bool :=
  match r with
  | Void => false
  | Eps => true
  | Set_ _ => false
  | Cat r1 r2 => nullable r1 && nullable r2
  | Alt r1 r2 => nullable r1 || nullable r2
  | Star _ => true
  end.

Definition mk_cat (r1 r2 : regex) : regex :=
  match r1 with
  | Void => Void
  | Eps => r2
  | _ => Cat r1 r2
  end.

Definition mk_alt (r1 r2 : regex) : regex :=
  match r1, r2 with
  | Void, _ => r2
  | _, Void => r1
  | _, _ => Alt r1 r2
  end.

Fixpoint deriv (c : ascii) (r : regex) : regex :=
  match r with
  | Void => Void
  | Eps => Void
  | Set_ p => if p c then Eps else Void
  | Cat r1 r2 =>
      if nullable r1
      then mk_alt (mk_cat (deriv c r1) r2) (deriv c r2)
      else mk_cat (deriv c r1) r2
  | Alt r1 r2 => mk_alt (deriv c r1) (deriv c r2)
  | Star r1 => mk_cat (deriv c r1) (Star r1)
  end.

(** [re.fullmatch(r, s) is not None]. *)
Fixpoint fullmatch (r : regex) (s : string) : bool :=
  match s with
  | EmptyString => nullable r
  | String c s' => fullmatch (deriv c r) s'
  end.

(** [re.match(r, s) is not None]: some prefix of [s] is in the language. *)
Fixpoint match_prefix (r : regex) (s : string) : bool :=
  nullable r ||
  match s with
  | EmptyString => false
  | String c s' => match_prefix (deriv c r) s'
  end.

(** [re.search(r, s) is not None]: some substring of [s] is in the language. *)
Fixpoint search (r : regex) (s : string) : bool :=
  match_prefix r s ||
  match s with
  | EmptyString => false
  | String _ s' => search r s'
  end.

(** [Comap f r r']: the pattern [r'] is [r] with every character set read
    through the character map [f]. *)
Inductive Comap (f : ascii -> ascii) : regex -> regex -> Prop :=
| Comap_Void : Comap f Void Void
| Comap_Eps : Comap f Eps Eps
| Comap_Set p q : (forall c, q c = p (f c)) -> Comap f (Set_ p) (Set_ q)
| Comap_Cat r1 r2 r1' r2' :
    Comap f r1 r1' -> Comap f r2 r2' -> Comap f (Cat r1 r2) (Cat r1' r2')
| Comap_Alt r1 r2 r1' r2' :
    Comap f r1 r1' -> Comap f r2 r2' -> Comap f (Alt r1 r2) (Alt r1' r2')
| Comap_Star r r' : Comap f r r' -> Comap f (Star r) (Star r').

End Re.

(* ================================================================== *)
(** * Exceptions *)
(* ================================================================== *)

(** The exception classes the sources raise, with their messages. *)
Inductive exn : Type :=
| RuntimeError (msg : string)
| TimeoutError (msg : string)
| TypeError (msg : string)
| OtherException (msg : string).

(** The outcome of a call that either returns or raises. *)
Inductive Outcome (A : Type) : Type :=
| Returned (a : A)
| Raised (e : exn).

Arguments Returned {A} a.
Arguments Raised {A} e.

Definition bind_outcome {A B : Type} (o : Outcome A) (f : A -> Outcome B) : Outcome B :=
  match o with
  | Returned a => f a
  | Raised e => Raised e
  end.

(* ================================================================== *)
(** * ord_scraper.py: keyword tables *)
(* ================================================================== *)

Module Scraper.

Import Text Re.

Definition AMINE_KEYWORDS : list string :=
  [ "amine"; "aniline"; "nh2"; "primary amine"; "secondary amine";
    "tertiary amine" ].

Definition ARYL_HALIDE_KEYWORDS : list string :=
  [ "aryl halide"; "chlorobenz"; "bromobenz"; "iodobenz"; "chloro"; "bromo";
    "iodo"; "halide" ].

Definition BASE_KEYWORDS : list string :=
  [ "carbonate"; "bicarbonate"; "hydroxide"; "tert-butoxide"; "otbu";
    "triethylamine"; "dipea"; "hunig"; "dbu"; "dbn"; "k3po4"; "k2co3";
    "cs2co3"; "naoh"; "koh"; "naome"; "kom e"; "lihmds"; "nahmds";
    "sodium hydride" ].

Definition METAL_KEYWORDS : list string :=
  [ "palladium"; "pd"; "nickel"; "ni"; "copper"; "cu"; "iron"; "fe";
    "ruthenium"; "ru"; "iridium"; "ir" ].

Definition LIGAND_KEYWORDS : list string :=
  [ "phos"; "xphos"; "sphos"; "johnphos"; "binap"; "dppe"; "dppf"; "dppp";
    "bipy"; "phen"; "bipyridine"; "phosphine"; "pcy3" ].

Definition INPUT_KEY_CATEGORY_MAP : gmap string string :=
  list_to_map
    [ ("base", "Base"); ("solvent", "Solvent"); ("ligand", "Ligand");
      ("metal", "Metal"); ("catalyst", "Metal"); ("amine", "amine");
      ("aryl halide", "aryl halide"); ("carboxylic acid", "carboxylic acid");
      ("activation agent", "activation agent"); ("additive", "additive") ].

(** The tuple of role labels tested in [_pick_name_from_cells] and in
    [extract_components]. *)
Definition PICK_LABELS : list string :=
  [ "reagent"; "reactant"; "solvent"; "ligand"; "metal"; "base" ].

Definition ROW_LABELS : list string :=
  [ "solvent"; "reagent"; "reactant"; "ligand"; "metal"; "base" ].

(* ------------------------------------------------------------------ *)
(** ** The patterns *)

(** [[0-9 .%]+] *)
Definition NUMERIC_RE : regex := plus (one_of "0123456789 .%").

(** [(?i)m\d+(?:_m\d+)*] *)
Definition SLOT_RE : regex :=
  Cat (Cat (chr_i "m") (plus digit))
      (Star (Cat (chr "_") (Cat (chr_i "m") (plus digit)))).

(** The same pattern without the [(?i)] flag. *)
Definition SLOT_RE_cs : regex :=
  Cat (Cat (chr "m") (plus digit))
      (Star (Cat (chr "_") (Cat (chr "m") (plus digit)))).

(** [\[o-\].*\[(na|k|li)\+\]] *)
Definition ALKOXIDE_RE : regex :=
  Cat (lit "[o-]")
      (Cat (Star dot)
           (Cat (chr "[")
                (Cat (alts [lit "na"; lit "k"; lit "li"]) (lit "+]")))).

(** [(carbonate|hydroxide|hmds|otbu|tert-?butoxide)] *)
Definition BASE_RE : regex :=
  alts [ lit "carbonate"; lit "hydroxide"; lit "hmds"; lit "otbu";
         Cat (lit "tert") (Cat (opt (chr "-")) (lit "butoxide")) ].

(** [n[h]?2] *)
Definition AMINE_RE : regex :=
  Cat (chr "n") (Cat (opt (one_of "h")) (chr "2")).

(** [c.*(cl|br|i)] *)
Definition ARYL_HALIDE_RE : regex :=
  Cat (chr "c") (Cat (Star dot) (alts [lit "cl"; lit "br"; lit "i"])).

(* ------------------------------------------------------------------ *)
(** ** The HTML path *)

(** [_pick_name_from_cells] *)
Fixpoint _pick_name_from_cells (cells : list string) : option string :=
  match cells with
  | [] => None
  | v :: rest =>
      if negb (truthy v) then _pick_name_from_cells rest
      else if fullmatch NUMERIC_RE v then _pick_name_from_cells rest
      else if in_tuple (lower v) PICK_LABELS then _pick_name_from_cells rest
      else Some v
  end.

(** [_classify_from_text]; the caller passes [name or ""], a string. *)
Definition _classify_from_text (name label : string) : option string :=
  let lv := lower label in
  let nm := lower name in
  if String.eqb lv "solvent" then Some "Solvent"
  else if String.eqb lv "ligand" then Some "Ligand"
  else if String.eqb lv "metal" then Some "Metal"
  else if String.eqb lv "base" then Some "Base"
  else if in_tuple lv ["reagent"; "reactant"] then
    if any_in BASE_KEYWORDS nm then Some "Base"
    else if any_in AMINE_KEYWORDS nm then Some "amine"
    else if any_in LIGAND_KEYWORDS nm then Some "Ligand"
    else if any_in METAL_KEYWORDS nm then Some "Metal"
    else if any_in ARYL_HALIDE_KEYWORDS nm
            || (contains "br" nm && contains "c" nm)
            || (contains "cl" nm && contains "c" nm)
            || (contains "i" nm && contains "c" nm)
    then Some "aryl halide"
    else None
  else None.

(** A table row as the parser hands it over: the stripped texts of its
    [td] cells, left to right, and the stripped text of its first [a]
    element, if it has one. *)
Record Row : Type := mkRow {
  row_cells : list string;
  row_link : option string
}.

(** [out[cat][name] += 1] on a [defaultdict(Counter)]. *)
Definition incr (cat name : string) (out : gmap string (gmap string nat))
  : gmap string (gmap string nat) :=
  let c := default ∅ (out !! cat) in
  <[cat := <[name := S (default 0 (c !! name))]> c]> out.

(** [cells[:-1]] *)
Definition all_but_last (cells : list string) : list string := removelast cells.

(** The label of a row: the first cell, scanning from the right, whose
    lowercased text is a role label. *)
Definition row_label (cells : list string) : option string :=
  List.find (fun v => in_tuple (lower v) ROW_LABELS) (rev cells).

(** The name of a row once its label is known. *)
Definition row_name (r : Row) : option string :=
  let name := _pick_name_from_cells (all_but_last (row_cells r)) in
  if negb (truthy_opt name) then row_link r else name.

(** One iteration of the [for tr in soup.find_all("tr")] loop of
    [extract_components]: what the row contributes, as an optional
    (category, name) pair. *)
Definition row_evidence (r : Row) : option (string * string) :=
  let cells := row_cells r in
  match cells with
  | [] => None
  | _ =>
      let label := row_label cells in
      if negb (truthy_opt label) then None
      else
        let name := row_name r in
        match _classify_from_text (default "" name) (default "" label) with
        | Some cat =>
            if truthy cat && truthy_opt name
            then Some (cat, default "" name)
            else None
        | None => None
        end
  end.

(** The tabular pass of [extract_components], from an empty [out]. *)
Definition extract_components_rows (rows : list Row) : gmap string (gmap string nat) :=
  foldl (fun out r =>
           match row_evidence r with
           | Some (cat, name) => incr cat name out
           | None => out
           end) ∅ rows.

(** [out[cat][name]], reading a missing entry as zero as [Counter] does. *)
Definition count_of (out : gmap string (gmap string nat)) (cat name : string) : nat :=
  default 0 (default ∅ (out !! cat) !! name).

(* ------------------------------------------------------------------ *)
(** ** Identifier tests of the structured path *)

Definition _is_base_ident (value : string) : bool :=
  let v := lower value in
  if any_in BASE_KEYWORDS v then true
  else if search ALKOXIDE_RE v then true
  else if search BASE_RE v then true
  else false.

Definition _is_amine_ident (value : string) : bool :=
  let v := lower value in
  if any_in AMINE_KEYWORDS v then true
  else if search AMINE_RE v then true
  else false.

Definition _is_aryl_halide_ident (value : string) : bool :=
  let v := lower value in
  if any_in ARYL_HALIDE_KEYWORDS v then true
  else if search ARYL_HALIDE_RE v then true
  else false.

Definition _is_metal_ident (value : string) : bool :=
  let v := lower value in
  if any_in METAL_KEYWORDS v then true else false.

Definition _is_ligand_ident (value : string) : bool :=
  let v := lower value in
  if any_in LIGAND_KEYWORDS v then true else false.

(* ------------------------------------------------------------------ *)
(** ** The structured path *)

(** The fields of a decoded [reaction_pb2.Reaction] that the scraper reads.
    [inputs] is a protobuf map, listed in iteration order. *)
Record CompoundIdentifier : Type := mkIdent {
  ident_type : Z;
  ident_value : string
}.

Record Compound : Type := mkCompound {
  reaction_role : Z;
  identifiers : list CompoundIdentifier
}.

Record ReactionInput : Type := mkInput {
  components : list Compound
}.

Record Reaction : Type := mkReaction {
  inputs : list (string * ReactionInput)
}.

(** What the [ord_schema] package provides: whether its import succeeded,
    the [Name] method of its two enumerations ([None] where it raises), and
    [base64.b64decode] followed by [ParseFromString] ([None] where either
    raises). *)
Record OrdSchema : Type := mkSchema {
  HAS_ORD : bool;
  ReactionRoleType_Name : Z -> option string;
  CompoundIdentifierType_Name : Z -> option string;
  parse_proto : string -> option Reaction
}.

(** [_enum_name] *)
Definition _enum_name (Name : Z -> option string) (value : Z) : string :=
  match Name value with
  | Some n => n
  | None => str_of_Z value
  end.

(** One element of a [raw] list.  [reaction_role] is read from a protobuf
    enum field, always an integer, so [role_name] is always a string. *)
Record Evidence : Type := mkEvidence {
  ev_reaction_id : string;
  ev_input_key : string;
  ev_reaction_role : string;
  ev_identifier_type : string;
  ev_value : string
}.

(** The pair [agg_counts], [raw] while a dataset is read, and the returned
    dictionary with keys [counts] and [raw]. *)
Record Aggregate : Type := mkAggregate {
  counts : gmap string (gmap string nat);
  raw : gmap string (list Evidence)
}.

Definition empty_aggregate : Aggregate := mkAggregate ∅ ∅.

(** [raw[cat]] and [agg_counts[cat][v]], a missing key read as empty. *)
Definition raw_of (a : Aggregate) (cat : string) : list Evidence :=
  default [] (raw a !! cat).

Definition counts_of (a : Aggregate) (cat v : string) : nat :=
  count_of (counts a) cat v.

(** The two statements
    [raw[cat].append({...}); agg_counts[cat][v] += 1]
    that every branch of [aggregate_dataset] runs together. *)
Definition record_evidence (cat : string) (e : Evidence) (a : Aggregate) : Aggregate :=
  let a1 := mkAggregate (counts a) (<[cat := (raw_of a cat ++ [e])%list]> (raw a)) in
  mkAggregate (incr cat (ev_value e) (counts a1)) (raw a1).

(** [cat_by_key] after lines 304-306. *)
Definition cat_by_key (k : string) : option string :=
  let c := INPUT_KEY_CATEGORY_MAP !! lower k in
  if negb (truthy_opt c) && fullmatch SLOT_RE k then Some k else c.

(** The body of the loops over [idents], for one identifier. *)
Definition aggregate_ident (rid k role_name : string) (cat : option string)
    (ident : string * string) (a : Aggregate) : Aggregate :=
  let v := ident.2 in
  let e := mkEvidence rid k role_name ident.1 v in
  if truthy_opt cat then record_evidence (default "" cat) e a
  else if String.eqb role_name "SOLVENT" then record_evidence "Solvent" e a
  else if in_tuple role_name ["CATALYST"] then
    let a1 := if _is_metal_ident v then record_evidence "Metal" e a else a in
    if _is_ligand_ident v then record_evidence "Ligand" e a1 else a1
  else if in_tuple role_name ["REAGENT"; "REACTANT"] then
    let a1 := if _is_base_ident v then record_evidence "Base" e a else a in
    let a2 := if _is_amine_ident v then record_evidence "amine" e a1 else a1 in
    if _is_aryl_halide_ident v then record_evidence "aryl halide" e a2 else a2
  else a.

(** The body of [for comp in inp.components]. *)
Definition aggregate_component (env : OrdSchema) (rid k : string)
    (comp : Compound) (a : Aggregate) : Aggregate :=
  let role_name := _enum_name (ReactionRoleType_Name env) (reaction_role comp) in
  let idents :=
    map (fun ident =>
           (_enum_name (CompoundIdentifierType_Name env) (ident_type ident),
            ident_value ident))
        (identifiers comp) in
  let cat := cat_by_key k in
  foldl (fun a ident => aggregate_ident rid k role_name cat ident a) a idents.

(** The body of [for k, inp in rxn.inputs.items()]. *)
Definition aggregate_input (env : OrdSchema) (rid : string)
    (slot : string * ReactionInput) (a : Aggregate) : Aggregate :=
  foldl (fun a comp => aggregate_component env rid slot.1 comp a) a
        (components slot.2).

Definition aggregate_reaction (env : OrdSchema) (rid : string)
    (rxn : Reaction) (a : Aggregate) : Aggregate :=
  foldl (fun a slot => aggregate_input env rid slot a) a (inputs rxn).

(** One element of the fetched list: the results of
    [item.get("reaction_id")] and [item.get("proto")]. *)
Record Item : Type := mkItem {
  item_reaction_id : option string;
  item_proto : option string
}.

(** The body of [for item in items].  Nothing between a successful parse
    and the end of the [try] block can raise, so the [except] clause is
    reached only from the decoding, before anything is recorded. *)
Definition aggregate_item (env : OrdSchema) (item : Item) (a : Aggregate) : Aggregate :=
  if negb (truthy_opt (item_reaction_id item)) then a
  else if HAS_ORD env && truthy_opt (item_proto item) then
    match parse_proto env (default "" (item_proto item)) with
    | Some rxn => aggregate_reaction env (default "" (item_reaction_id item)) rxn a
    | None => a
    end
  else a.

Definition aggregate_items (env : OrdSchema) (items : list Item) : Aggregate :=
  foldl (fun a item => aggregate_item env item a) empty_aggregate items.

(** [aggregate_dataset].  [fetched] is the outcome of its first two lines,
    [submit_query_for_dataset] followed by [fetch_query_result]. *)
Definition aggregate_dataset (env : OrdSchema) (fetched : Outcome (list Item))
  : Outcome Aggregate :=
  bind_outcome fetched (fun items => Returned (aggregate_items env items)).

(* ------------------------------------------------------------------ *)
(** ** The poll loop *)

(** A response of the result endpoint: its status and what [r.json()]
    gives. *)
Record Response : Type := mkResponse {
  status_code : Z;
  json : Outcome (list Item)
}.

(** One round of the loop as the environment plays it: [s.get] raises, or
    it returns a response, and [elapsed] is the value of
    [time.time() - t0] at line 151 of that round. *)
Inductive PollStep : Type :=
| GetRaises (e : exn)
| GetReturns (r : Response) (elapsed : Q).

(** [fetch_query_result] run against a script of rounds.  The result is
    [None] when the script ends while the loop is still polling; the second
    component is what is left of the script.  The sleeps between rounds
    only pass time and are not part of the model. *)
Fixpoint fetch_query_result (task_id : string) (timeout_seconds : Z)
    (script : list PollStep) : option (Outcome (list Item)) * list PollStep :=
  match script with
  | [] => (None, [])
  | GetRaises e :: rest => (Some (Raised e), rest)
  | GetReturns r elapsed :: rest =>
      if (status_code r =? 200)%Z then (Some (json r), rest)
      else if (status_code r =? 202)%Z then
        if negb (Qle_bool elapsed (inject_Z timeout_seconds))
        then (Some (Raised (TimeoutError ("Timeout waiting for task " ++ task_id))), rest)
        else fetch_query_result task_id timeout_seconds rest
      else if (status_code r =? 404)%Z then
        (Some (Raised (RuntimeError ("Task " ++ task_id ++ " not found"))), rest)
      else
        (Some (Raised (RuntimeError
           ("Unexpected status " ++ str_of_Z (status_code r) ++ " for task " ++ task_id))),
         rest)
  end.

(* ------------------------------------------------------------------ *)
(** ** The per-dataset loop of [main] *)

Record Args : Type := mkArgs {
  base_only : bool;
  smiles_only : bool
}.

Definition is_smiles (x : Evidence) : bool :=
  String.eqb (ev_identifier_type x) "SMILES".

(** Lines 364-374: the value stored under [result[did]].  The guard
    [if data:] always passes, [data] being a dictionary with two keys. *)
Definition filter_output (args : Args) (data : Aggregate) : Aggregate :=
  if base_only args then
    let base_raw :=
      List.filter (fun x => negb (smiles_only args) || is_smiles x)
                  (default [] (raw data !! "Base")) in
    let base_counts := default ∅ (counts data !! "Base") in
    mkAggregate {[ "Base" := base_counts ]} {[ "Base" := base_raw ]}
  else if smiles_only args then
    mkAggregate (counts data) (List.filter is_smiles <$> raw data)
  else data.

(** The body of [for did in target_ids], with its [try]/[except]; [t] is
    the id together with the outcome that the service gives to this
    iteration's requests. *)
Definition main_step (env : OrdSchema) (args : Args)
    (result : gmap string Aggregate) (t : string * Outcome (list Item))
  : gmap string Aggregate :=
  match aggregate_dataset env t.2 with
  | Returned data => <[t.1 := filter_output args data]> result
  | Raised _ => result
  end.

(** The ids of a run, in order. *)
Definition target_ids (targets : list (string * Outcome (list Item))) : list string :=
  map fst targets.

(** The loop over [target_ids], from [result = {}]. *)
Definition main_loop (env : OrdSchema) (args : Args)
    (targets : list (string * Outcome (list Item))) : gmap string Aggregate :=
  foldl (main_step env args) ∅ targets.

(* ------------------------------------------------------------------ *)
(** ** Vocabulary of the statements *)

(** The number of items of a raw list whose [value] field is [v]. *)
Definition occurrences (v : string) (l : list Evidence) : nat :=
  length (List.filter (fun e => String.eqb (ev_value e) v) l).

(** The two views of an aggregate agree. *)
Definition lock_step (a : Aggregate) : Prop :=
  forall cat v, counts_of a cat v = occurrences v (raw_of a cat).

(** Aggregates reachable from the empty one by the paired
    append-and-increment step alone. *)
Inductive Accumulated : Aggregate -> Prop :=
| Accumulated_empty : Accumulated empty_aggregate
| Accumulated_record cat e a :
    Accumulated a -> Accumulated (record_evidence cat e a).

(** The evidence items that the identifiers of a component give rise to,
    one per identifier, in order. *)
Definition component_evidence (env : OrdSchema) (rid k : string)
    (comp : Compound) : list Evidence :=
  map (fun ident =>
         mkEvidence rid k
           (_enum_name (ReactionRoleType_Name env) (reaction_role comp))
           (_enum_name (CompoundIdentifierType_Name env) (ident_type ident))
           (ident_value ident))
      (identifiers comp).

(** Those of all components of a slot. *)
Definition slot_evidence (env : OrdSchema) (rid k : string)
    (inp : ReactionInput) : list Evidence :=
  flat_map (component_evidence env rid k) (components inp).

(** Recording a list of items under one category. *)
Definition record_all (cat : string) (es : list Evidence) (a : Aggregate) : Aggregate :=
  foldl (fun a e => record_evidence cat e a) a es.

(** The test that decides whether a reagent or reactant value is evidence
    for a category. *)
Definition reagent_test (cat v : string) : bool :=
  (String.eqb cat "Base" && _is_base_ident v)
  || (String.eqb cat "amine" && _is_amine_ident v)
  || (String.eqb cat "aryl halide" && _is_aryl_halide_ident v).

(** The keyword tests of the text classifier in their priority order, on
    the lowercased name. *)
Definition PRIORITY : list (string * (string -> bool)) :=
  [ ("Base", any_in BASE_KEYWORDS);
    ("amine", any_in AMINE_KEYWORDS);
    ("Ligand", any_in LIGAND_KEYWORDS);
    ("Metal", any_in METAL_KEYWORDS);
    ("aryl halide",
     fun nm => any_in ARYL_HALIDE_KEYWORDS nm
               || (contains "br" nm && contains "c" nm)
               || (contains "cl" nm && contains "c" nm)
               || (contains "i" nm && contains "c" nm)) ].

Definition first_match (nm : string) : option string :=
  fst <$> List.find (fun t => t.2 nm) PRIORITY.

(** A round that leaves the poll loop running: a 202 response whose
    elapsed time does not exceed the timeout. *)
Definition waiting (timeout_seconds : Z) (st : PollStep) : bool :=
  match st with
  | GetReturns r elapsed =>
      (status_code r =? 202)%Z && Qle_bool elapsed (inject_Z timeout_seconds)
  | GetRaises _ => false
  end.

End Scraper.

(* ================================================================== *)
(** * string_utils.py *)
(* ================================================================== *)

Module StringUtils.




End StringUtils.

(* ================================================================== *)
(** * Sample inputs *)
(* ================================================================== *)

Module Samples.

Import Scraper.

(** A schema for concrete runs: the role and identifier-type names that
    the scraper tests for, under the numbers [ord_schema] gives them, and
    a decoder that knows one payload. *)
Definition sample_role_Name (n : Z) : option string :=
  match n with
  | 1%Z => Some "REACTANT"
  | 2%Z => Some "REAGENT"
  | 3%Z => Some "SOLVENT"
  | 4%Z => Some "CATALYST"
  | _ => None
  end.

Definition sample_type_Name (n : Z) : option string :=
  match n with
  | 2%Z => Some "SMILES"
  | 6%Z => Some "NAME"
  | _ => None
  end.

Definition sample_component : Compound :=
  mkCompound 2 [mkIdent 6 "triethylamine"; mkIdent 2 "CCN(CC)CC"].

Definition sample_input : ReactionInput :=
  mkInput [sample_component; mkCompound 3 [mkIdent 6 "THF"]].

Definition sample_reaction : Reaction :=
  mkReaction [("M1_m2", sample_input); ("reagents", sample_input)].

Definition sample_env : OrdSchema :=
  mkSchema true sample_role_Name sample_type_Name
    (fun blob => if String.eqb blob "cnhu" then Some sample_reaction else None).

(** The row of the tabular example. *)
Definition row_1_0_eq : Row := mkRow ["1.0 eq"; "K2CO3"; "Reagent"] None.

Definition sample_items : list Item :=
  [ mkItem (Some "ord-1") (Some "cnhu");
    mkItem None (Some "cnhu");
    mkItem (Some "ord-2") (Some "????");
    mkItem (Some "ord-3") (Some "cnhu") ].

(** A run of [main] over three datasets, the second of which fails. *)
Definition sample_targets_before : list (string * Outcome (list Item)) :=
  [("ord_dataset-a", Returned sample_items)].

Definition sample_targets_after : list (string * Outcome (list Item)) :=
  [("ord_dataset-c", Returned [mkItem (Some "ord-9") (Some "cnhu")])].

(** Two not-ready rounds, then a ready one. *)
Definition sample_not_ready : list PollStep :=
  [ GetReturns (mkResponse 202 (Raised (OtherException "no body"))) (1 # 2);
    GetReturns (mkResponse 202 (Raised (OtherException "no body"))) (5 # 4) ].

Definition sample_ready : Response := mkResponse 200 (Returned sample_items).

End Samples.

(* ================================================================== *)
(** * Stripping *)
(* ================================================================== *)

Module Strip.

Import Text.

(** [str.isspace] on one character; the same characters are those of
    [\s] in a pattern. *)
Definition is_space (c : ascii) : bool :=
  let n := N_of_ascii c in
  (((9 <=? n) && (n <=? 13)) || ((28 <=? n) && (n <=? 32)))%N.

Fixpoint lstrip_by (p : ascii -> bool) (s : string) : string :=
  match s with
  | EmptyString => EmptyString
  | String c s' => if p c then lstrip_by p s' else s
  end.

Fixpoint rstrip_by (p : ascii -> bool) (s : string) : string :=
  match s with
  | EmptyString => EmptyString
  | String c s' =>
      let r := rstrip_by p s' in
      if p c && String.eqb r "" then EmptyString else String c r
  end.

Definition strip_by (p : ascii -> bool) (s : string) : string :=
  rstrip_by p (lstrip_by p s).

(** [s.strip()] *)
Definition strip (s : string) : string := strip_by is_space s.



(** The longest prefix of [s] whose characters all pass [p]. *)
Fixpoint take_while (p : ascii -> bool) (s : string) : string :=
  match s with
  | EmptyString => EmptyString
  | String c s' => if p c then String c (take_while p s') else EmptyString
  end.

(** [s] without a leading [pre], if it starts with it. *)
Fixpoint strip_prefix (pre s : string) : option string :=
  match pre, s with
  | EmptyString, _ => Some s
  | String a pre', String b s' =>
      if Ascii.eqb a b then strip_prefix pre' s' else None
  | String _ _, EmptyString => None
  end.

(** The same, comparing letters without regard to case. *)
Fixpoint strip_prefix_ci (pre s : string) : option string :=
  match pre, s with
  | EmptyString, _ => Some s
  | String a pre', String b s' =>
      if Ascii.eqb (lower_char a) (lower_char b)
      then strip_prefix_ci pre' s' else None
  | String _ _, EmptyString => None
  end.

(** Every character of [s] passes [p]. *)
Fixpoint all_chars (p : ascii -> bool) (s : string) : bool :=
  match s with
  | EmptyString => true
  | String c s' => p c && all_chars p s'
  end.

(** The first character of [s] passes [p]; the last one does. *)
Definition head_passes (p : ascii -> bool) (s : string) : bool :=
  match s with
  | EmptyString => false
  | String c _ => p c
  end.

Fixpoint last_passes (p : ascii -> bool) (s : string) : bool :=
  match s with
  | EmptyString => false
  | String c EmptyString => p c
  | String _ s' => last_passes p s'
  end.

End Strip.

(* ================================================================== *)
(** * ord_scraper.py: the rest of the network and HTML code *)
(* ================================================================== *)

Module ScraperRest.

Import Text Re Strip Scraper.

(* ------------------------------------------------------------------ *)
(** ** [submit_query_for_dataset] *)


(* ------------------------------------------------------------------ *)
(** ** The poll loop with its sleeps *)

(** [min(5.0, delay * 1.5)].  From 0.5 the values are 0.75, 1.125,
    1.6875, 2.53125, 3.796875 and then 5.0: each product is exact in
    binary floating point, so the rationals are the floats. *)
Definition next_delay (delay : Q) : Q :=
  let d := (delay * (3 # 2))%Q in
  if Qle_bool 5%Q d then 5%Q else d.

(** The loop of [fetch_query_result] with the local variable [delay]; the
    second component lists the arguments of [time.sleep], in order. *)
Fixpoint poll (task_id : string) (timeout_seconds : Z) (delay : Q)
    (script : list PollStep)
  : option (Outcome (list Item)) * list Q * list PollStep :=
  match script with
  | [] => (None, [], [])
  | GetRaises e :: rest => (Some (Raised e), [], rest)
  | GetReturns r elapsed :: rest =>
      if (status_code r =? 200)%Z then (Some (json r), [], rest)
      else if (status_code r =? 202)%Z then
        if negb (Qle_bool elapsed (inject_Z timeout_seconds))
        then (Some (Raised (TimeoutError ("Timeout waiting for task " ++ task_id))),
              [delay], rest)
        else
          let '(res, sleeps, rest') :=
            poll task_id timeout_seconds (next_delay delay) rest in
          (res, delay :: sleeps, rest')
      else if (status_code r =? 404)%Z then
        (Some (Raised (RuntimeError ("Task " ++ task_id ++ " not found"))), [], rest)
      else
        (Some (Raised (RuntimeError
           ("Unexpected status " ++ str_of_Z (status_code r) ++ " for task " ++ task_id))),
         [], rest)
  end.

(** [fetch_query_result], which starts with [delay = 0.5]. *)
Definition fetch_query_result_sleeps (task_id : string) (timeout_seconds : Z)
    (script : list PollStep)
  : option (Outcome (list Item)) * list Q * list PollStep :=
  poll task_id timeout_seconds (1 # 2)%Q script.

(** The [n]-th value of [delay]. *)
Fixpoint delay_at (n : nat) : Q :=
  match n with
  | O => (1 # 2)%Q
  | S n' => next_delay (delay_at n')
  end.

(* ------------------------------------------------------------------ *)
(** ** The free-text pass of [extract_components] *)

(** [[^\n\r<]] *)
Definition group_char (c : ascii) : bool :=
  negb (Ascii.eqb c "010"%char || Ascii.eqb c "013"%char || Ascii.eqb c "<"%char).

(** [([^\n\r<]+)] at the head of [s]: the group and its length. *)
Definition group_at (s : string) : option (string * nat) :=
  let g := take_while group_char s in
  if String.eqb g "" then None else Some (g, String.length g).

(** [\s*([^\n\r<]+)] at the head of [s], as the backtracking matcher
    runs it: [\s*] takes a whitespace character if the rest then matches,
    and gives it back otherwise. *)
Fixpoint after_colon (s : string) : option (string * nat) :=
  match s with
  | EmptyString => group_at s
  | String c s' =>
      if is_space c then
        match after_colon s' with
        | Some (g, n) => Some (g, S n)
        | None => group_at s
        end
      else group_at s
  end.

(** [:\s*([^\n\r<]+)] *)
Definition colon_at (s : string) : option (string * nat) :=
  match s with
  | String ":" s' =>
      match after_colon s' with
      | Some (g, n) => Some (g, S n)
      | None => None
      end
  | _ => None
  end.

(** [\s*:\s*([^\n\r<]+)] *)
Fixpoint before_colon (s : string) : option (string * nat) :=
  match s with
  | EmptyString => colon_at s
  | String c s' =>
      if is_space c then
        match before_colon s' with
        | Some (g, n) => Some (g, S n)
        | None => colon_at s
        end
      else colon_at s
  end.

(** [re.match(rf"{lab}\s*:\s*([^\n\r<]+)", s, re.IGNORECASE)]: group 1 and
    the length of the match. *)
Definition label_match_at (lab s : string) : option (string * nat) :=
  match strip_prefix_ci lab s with
  | Some rest =>
      match before_colon rest with
      | Some (g, n) => Some (g, String.length lab + n)
      | None => None
      end
  | None => None
  end.

(** [[m.group(1) for m in re.finditer(...)]]: the matches from left to
    right, each search starting where the previous match ended; [skip]
    counts the characters of the current match still to pass. *)
Fixpoint label_groups_from (skip : nat) (lab s : string) : list string :=
  match s with
  | EmptyString => []
  | String _ s' =>
      match skip with
      | S k => label_groups_from k lab s'
      | O =>
          match label_match_at lab s with
          | Some (g, n) => g :: label_groups_from (Nat.pred n) lab s'
          | None => label_groups_from 0 lab s'
          end
      end
  end.

Definition label_groups (lab text : string) : list string :=
  label_groups_from 0 lab text.

Definition cons_head (c : ascii) (parts : list string) : list string :=
  match parts with
  | [] => [String c ""]
  | p :: ps => String c p :: ps
  end.

Definition is_sep (c : ascii) : bool :=
  Ascii.eqb c ";"%char || Ascii.eqb c ","%char.

(** [re.split(r"[;,]\s*", s)]; [skipping] holds while the whitespace after
    a separator is being passed. *)
Fixpoint split_from (skipping : bool) (s : string) : list string :=
  match s with
  | EmptyString => [""]
  | String c s' =>
      if skipping && is_space c then split_from true s'
      else if is_sep c then "" :: split_from true s'
      else cons_head c (split_from false s')
  end.

Definition split_parts (raw : string) : list string := split_from false raw.

(** [[p.strip() for p in re.split(r"[;,]\s*", raw) if p.strip()]] *)
Definition parts_of (raw : string) : list string :=
  map strip (List.filter (fun p => truthy (strip p)) (split_parts raw)).

Definition TEXT_LABELS : list (string * string) :=
  [ ("Base", "Base"); ("Solvent", "Solvent"); ("Ligand", "Ligand");
    ("Catalyst", "Metal") ].

(** The names that the free-text pass records for one label. *)
Definition label_names (lab text : string) : list string :=
  flat_map parts_of (label_groups lab text).

(** The loop over [TEXT_LABELS]. *)
Definition free_text_pass (text : string) (out : gmap string (gmap string nat))
  : gmap string (gmap string nat) :=
  foldl (fun out lc =>
           foldl (fun out raw =>
                    foldl (fun out p => incr lc.2 p out) out (parts_of raw))
                 out (label_groups lc.1 text))
        out TEXT_LABELS.

(** A summary document as the parser hands it over: its table rows and
    the text of [soup.get_text(" ", strip=True)]. *)
Record Document : Type := mkDocument {
  doc_rows : list Row;
  doc_text : string
}.

(** [extract_components] *)
Definition extract_components (doc : Document) : gmap string (gmap string nat) :=
  free_text_pass (doc_text doc) (extract_components_rows (doc_rows doc)).

(* ------------------------------------------------------------------ *)
(** ** The target ids of [main] *)

Definition is_alnum (c : ascii) : bool :=
  let n := N_of_ascii c in
  (((48 <=? n) && (n <=? 57)) || ((65 <=? n) && (n <=? 90))
   || ((97 <=? n) && (n <=? 122)))%N.

(** [ord_dataset-[A-Za-z0-9]+] *)
Definition DATASET_ID_RE : regex :=
  Cat (lit "ord_dataset-") (plus (Set_ is_alnum)).

(** The pattern matched at the head of [u]: the text of the match. *)
Definition dataset_id_at (u : string) : option string :=
  match strip_prefix "ord_dataset-" u with
  | Some rest =>
      let run := take_while is_alnum rest in
      if String.eqb run "" then None else Some ("ord_dataset-" ++ run)
  | None => None
  end.

(** [re.search(r"ord_dataset-[A-Za-z0-9]+", u)], giving [m.group(0)]. *)
Fixpoint dataset_id_in (u : string) : option string :=
  match dataset_id_at u with
  | Some id => Some id
  | None =>
      match u with
      | EmptyString => None
      | String _ u' => dataset_id_in u'
      end
  end.




(* ------------------------------------------------------------------ *)
(** ** Vocabulary of the statements *)

(** What one identifier gives rise to: the (category, item) pairs that
    [aggregate_dataset] records for it, in order. *)
Definition ident_emits (rid k role_name : string) (cat : option string)
    (ident : string * string) : list (string * Evidence) :=
  let v := ident.2 in
  let e := mkEvidence rid k role_name ident.1 v in
  if truthy_opt cat then [(default "" cat, e)]
  else if String.eqb role_name "SOLVENT" then [("Solvent", e)]
  else if in_tuple role_name ["CATALYST"] then
    ((if _is_metal_ident v then [("Metal", e)] else [])
     ++ (if _is_ligand_ident v then [("Ligand", e)] else []))%list
  else if in_tuple role_name ["REAGENT"; "REACTANT"] then
    ((if _is_base_ident v then [("Base", e)] else [])
     ++ (if _is_amine_ident v then [("amine", e)] else [])
     ++ (if _is_aryl_halide_ident v then [("aryl halide", e)] else []))%list
  else [].

Definition component_emits (env : OrdSchema) (rid k : string) (comp : Compound)
  : list (string * Evidence) :=
  flat_map
    (fun ident =>
       ident_emits rid k
         (_enum_name (ReactionRoleType_Name env) (reaction_role comp))
         (cat_by_key k)
         (_enum_name (CompoundIdentifierType_Name env) (ident_type ident),
          ident_value ident))
    (identifiers comp).

Definition reaction_emits (env : OrdSchema) (rid : string) (rxn : Reaction)
  : list (string * Evidence) :=
  flat_map (fun slot => flat_map (component_emits env rid slot.1) (components slot.2))
           (inputs rxn).

Definition item_emits (env : OrdSchema) (item : Item) : list (string * Evidence) :=
  if negb (truthy_opt (item_reaction_id item)) then []
  else if HAS_ORD env && truthy_opt (item_proto item) then
    match parse_proto env (default "" (item_proto item)) with
    | Some rxn => reaction_emits env (default "" (item_reaction_id item)) rxn
    | None => []
    end
  else [].

Definition items_emits (env : OrdSchema) (items : list Item) : list (string * Evidence) :=
  flat_map (item_emits env) items.

(** Recording a list of pairs, each by the paired step. *)
Definition record_pairs (ps : list (string * Evidence)) (a : Aggregate) : Aggregate :=
  foldl (fun a p => record_evidence p.1 p.2 a) a ps.

(** The items of a list of pairs that are under category [c]. *)
Definition under (c : string) (ps : list (string * Evidence)) : list Evidence :=
  map snd (List.filter (fun p => String.eqb p.1 c) ps).

(** Why an item may stand under a category: the slot key gives the
    category, or the slot has none and the role of the component and the
    test of the value give it. *)
Definition justified (cat : string) (e : Evidence) : Prop :=
  match cat_by_key (ev_input_key e) with
  | Some c => cat = c
  | None =>
      (ev_reaction_role e = "SOLVENT" /\ cat = "Solvent")
      \/ (ev_reaction_role e = "CATALYST"
          /\ ((cat = "Metal" /\ _is_metal_ident (ev_value e) = true)
              \/ (cat = "Ligand" /\ _is_ligand_ident (ev_value e) = true)))
      \/ ((ev_reaction_role e = "REAGENT" \/ ev_reaction_role e = "REACTANT")
          /\ reagent_test cat (ev_value e) = true)
  end.

(** The test that decides whether a catalyst value is evidence for a
    category. *)
Definition catalyst_test (cat v : string) : bool :=
  (String.eqb cat "Metal" && _is_metal_ident v)
  || (String.eqb cat "Ligand" && _is_ligand_ident v).

(** The evidence of the tabular pass, row by row, and of the free-text
    pass, label by label, as (category, name) pairs in the order in which
    they are counted. *)
Definition rows_emits (rows : list Row) : list (string * string) :=
  flat_map (fun r => match row_evidence r with Some p => [p] | None => [] end) rows.

Definition text_emits (text : string) : list (string * string) :=
  flat_map (fun lc => map (pair lc.2) (label_names lc.1 text)) TEXT_LABELS.

(** The number of pairs of a list that are (category [c], name [n]). *)
Definition tally (c n : string) (ps : list (string * string)) : nat :=
  length (List.filter (fun p => String.eqb p.1 c && String.eqb p.2 n) ps).




(** The categories of the HTML path. *)
Definition HTML_CATEGORIES : list string :=
  [ "Solvent"; "Ligand"; "Metal"; "Base"; "amine"; "aryl halide" ].

(** The last attempt for [d] that returned, if any. *)
Definition last_returned (d : string)
    (targets : list (string * Outcome (list Item))) : option (list Item) :=
  foldl (fun acc t =>
           match t.2 with
           | Returned items => if String.eqb t.1 d then Some items else acc
           | Raised _ => acc
           end) None targets.

End ScraperRest.

(* ================================================================== *)
(** * Properties of the text primitives *)
(* ================================================================== *)

Module TextFacts.

Import Text.

Local Arguments String.append !s1 s2 : simpl nomatch.

Lemma append_empty_r (s : string) : s ++ "" = s.
Proof. induction s as [|c s IH]; simpl; [reflexivity | now rewrite IH]. Qed.

Lemma append_eq_empty (s1 s2 : string) : s1 ++ s2 = "" -> s1 = "" /\ s2 = "".
Proof. destruct s1; simpl; intros H; [split; [reflexivity | exact H] | discriminate]. Qed.



Lemma in_tuple_iff (v : string) (t : list string) :
  in_tuple v t = true <-> In v t.
Proof.
  unfold in_tuple. rewrite existsb_exists. split.
  - intros (x & Hx & Heq). apply String.eqb_eq in Heq. now subst.
  - intros H. exists v. split; [exact H | apply String.eqb_refl].
Qed.

Lemma truthy_opt_Some (o : option string) :
  truthy_opt o = true <-> exists s, o = Some s /\ s <> "".
Proof.
  destruct o as [s|]; simpl; unfold truthy.
  - rewrite negb_true_iff, String.eqb_neq. split.
    + intros H. now exists s.
    + intros (t & [= ->] & H). exact H.
  - split; [discriminate | intros (t & H & _); discriminate].
Qed.

Lemma lower_char_idem (c : ascii) : lower_char (lower_char c) = lower_char c.
Proof. destruct c as [[] [] [] [] [] [] [] []]; reflexivity. Qed.

Lemma lower_idem (s : string) : lower (lower s) = lower s.
Proof.
  induction s as [|c s IH]; simpl; [reflexivity|].
  now rewrite lower_char_idem, IH.
Qed.

End TextFacts.

(* ================================================================== *)
(** * Correctness of the matcher *)
(* ================================================================== *)

Module ReFacts.

Import Text Re TextFacts.

Local Arguments String.append !s1 s2 : simpl nomatch.

Lemma nullable_iff (r : regex) : nullable r = true <-> Matches r "".
Proof.
  split.
  - induction r; simpl; intros H; try discriminate.
    + constructor.
    + apply andb_true_iff in H as [H1 H2].
      change "" with ("" ++ ""). constructor; auto.
    + apply orb_true_iff in H as [H|H]; [apply MAltL | apply MAltR]; auto.
    + constructor.
  - intros H. remember "" as s eqn:Hs.
    induction H; simpl; subst; try reflexivity; try discriminate.
    + apply append_eq_empty in Hs as [-> ->].
      rewrite IHMatches1, IHMatches2; reflexivity.
    + rewrite IHMatches; reflexivity.
    + rewrite IHMatches; [apply orb_true_r | reflexivity].
Qed.

Lemma Matches_Void (s : string) : ~ Matches Void s.
Proof. intros H. inversion H. Qed.

Lemma Matches_Eps (s : string) : Matches Eps s <-> s = "".
Proof. split; [intros H; now inversion H | intros ->; constructor]. Qed.

Lemma Matches_Cat (r1 r2 : regex) (s : string) :
  Matches (Cat r1 r2) s <->
  exists s1 s2, s = s1 ++ s2 /\ Matches r1 s1 /\ Matches r2 s2.
Proof.
  split.
  - intros H. inversion H; subst. eauto.
  - intros (s1 & s2 & -> & H1 & H2). now constructor.
Qed.

Lemma Matches_Alt (r1 r2 : regex) (s : string) :
  Matches (Alt r1 r2) s <-> Matches r1 s \/ Matches r2 s.
Proof.
  split.
  - intros H. inversion H; subst; auto.
  - intros [H|H]; [now apply MAltL | now apply MAltR].
Qed.

Lemma mk_cat_iff (r1 r2 : regex) (s : string) :
  Matches (mk_cat r1 r2) s <-> Matches (Cat r1 r2) s.
Proof.
  destruct r1; simpl; try tauto.
  - rewrite Matches_Cat. split.
    + intros H. now apply Matches_Void in H.
    + intros (s1 & s2 & _ & H & _). now apply Matches_Void in H.
  - rewrite Matches_Cat. split.
    + intros H. exists "", s. repeat split; [constructor | exact H].
    + intros (s1 & s2 & -> & H1 & H2). apply Matches_Eps in H1. now subst.
Qed.

Lemma mk_alt_iff (r1 r2 : regex) (s : string) :
  Matches (mk_alt r1 r2) s <-> Matches r1 s \/ Matches r2 s.
Proof.
  pose proof (Matches_Void s) as HV.
  destruct r1, r2; simpl; rewrite ?Matches_Alt; tauto.
Qed.

(** A string of the starred language that starts with [c] splits into a
    first non-empty iteration and the rest. *)
Lemma Matches_Star_cons (r : regex) (c : ascii) (s : string) :
  Matches (Star r) (String c s) ->
  exists s1 s2, s = s1 ++ s2 /\ Matches r (String c s1) /\ Matches (Star r) s2.
Proof.
  intros H. remember (Star r) as r' eqn:Hr. remember (String c s) as t eqn:Ht.
  revert s Ht. induction H; intros t Ht; try discriminate.
  injection Hr as ->. destruct s1 as [|a s1]; simpl in Ht.
  - apply IHMatches2; auto.
  - injection Ht as -> <-. eauto.
Qed.

Lemma deriv_iff (c : ascii) (r : regex) (s : string) :
  Matches (deriv c r) s <-> Matches r (String c s).
Proof.
  revert s. induction r as [| |p|r1 IH1 r2 IH2|r1 IH1 r2 IH2|r IH]; intros s; simpl.
  - split; intros H; inversion H.
  - split; intros H; inversion H.
  - destruct (p c) eqn:Hp.
    + rewrite Matches_Eps. split.
      * intros ->. now constructor.
      * intros H. now inversion H.
    + split; intros H; inversion H; congruence.
  - assert (Hcat : Matches (mk_cat (deriv c r1) r2) s <->
                   exists s1 s2, s = s1 ++ s2 /\ Matches r1 (String c s1) /\ Matches r2 s2).
    { rewrite mk_cat_iff, Matches_Cat. split.
      - intros (s1 & s2 & E & H1 & H2). apply IH1 in H1. eauto.
      - intros (s1 & s2 & E & H1 & H2). apply IH1 in H1. eauto. }
    rewrite Matches_Cat. destruct (nullable r1) eqn:Hn.
    + rewrite mk_alt_iff, Hcat, IH2. split.
      * intros [(s1 & s2 & -> & H1 & H2) | H].
        -- exists (String c s1), s2. auto.
        -- apply nullable_iff in Hn. exists "", (String c s). auto.
      * intros (s1 & s2 & E & H1 & H2). destruct s1 as [|a s1]; simpl in E.
        -- right. now subst.
        -- injection E as -> ->. left. eauto.
    + rewrite Hcat. split.
      * intros (s1 & s2 & -> & H1 & H2). exists (String c s1), s2. auto.
      * intros (s1 & s2 & E & H1 & H2). destruct s1 as [|a s1]; simpl in E.
        -- apply nullable_iff in H1. congruence.
        -- injection E as -> ->. eauto.
  - rewrite mk_alt_iff, IH1, IH2, Matches_Alt. tauto.
  - rewrite mk_cat_iff, Matches_Cat. split.
    + intros (s1 & s2 & -> & H1 & H2). apply IH in H1.
      change (String c (s1 ++ s2)) with (String c s1 ++ s2). now constructor.
    + intros H. apply Matches_Star_cons in H as (s1 & s2 & -> & H1 & H2).
      apply IH in H1. eauto.
Qed.

(** [fullmatch] decides membership in the language of the pattern. *)
Lemma fullmatch_iff (r : regex) (s : string) :
  fullmatch r s = true <-> Matches r s.
Proof.
  revert r. induction s as [|c s IH]; intros r; simpl.
  - apply nullable_iff.
  - rewrite IH. apply deriv_iff.
Qed.

Lemma match_prefix_iff (r : regex) (s : string) :
  match_prefix r s = true <-> exists p q, s = p ++ q /\ Matches r p.
Proof.
  revert r. induction s as [|c s IH]; intros r; simpl.
  - rewrite orb_false_r, nullable_iff. split.
    + intros H. now exists "", "".
    + intros (p & q & E & H). symmetry in E.
      apply append_eq_empty in E as [-> _]. exact H.
  - rewrite orb_true_iff, nullable_iff, IH. split.
    + intros [H | (p & q & -> & H)].
      * now exists "", (String c s).
      * apply deriv_iff in H. now exists (String c p), q.
    + intros (p & q & E & H). destruct p as [|a p]; simpl in E.
      * now left.
      * injection E as -> ->. right. apply deriv_iff in H. eauto.
Qed.

(** [search] finds the pattern in some substring. *)
Lemma search_iff (r : regex) (s : string) :
  search r s = true <-> exists a b c, s = a ++ b ++ c /\ Matches r b.
Proof.
  induction s as [|x s IH]; cbn [search].
  - rewrite orb_false_r, match_prefix_iff. split.
    + intros (p & q & E & H). now exists "", p, q.
    + intros (a & b & c & E & H). symmetry in E.
      apply append_eq_empty in E as [-> E]. simpl in E. eauto.
  - rewrite orb_true_iff, match_prefix_iff, IH. split.
    + intros [(p & q & E & H) | (a & b & c & E & H)].
      * now exists "", p, q.
      * exists (String x a), b, c. simpl. now rewrite E.
    + intros (a & b & c & E & H). destruct a as [|y a]; simpl in E.
      * left. eauto.
      * injection E as -> ->. right. eauto.
Qed.

End ReFacts.

(* ================================================================== *)
(** * The aggregate: counts and raw lists move together *)
(* ================================================================== *)

Module AggregateFacts.

Import Text Re Scraper TextFacts.

Lemma count_of_incr (cat name cat' name' : string)
    (out : gmap string (gmap string nat)) :
  count_of (incr cat name out) cat' name' =
  count_of out cat' name'
  + (if String.eqb cat' cat && String.eqb name name' then 1 else 0).
Proof.
  unfold count_of, incr.
  destruct (String.eqb_spec cat' cat) as [->|Hc]; simpl.
  - rewrite lookup_insert_eq. simpl.
    destruct (String.eqb_spec name name') as [->|Hn].
    + rewrite lookup_insert_eq. simpl. lia.
    + rewrite lookup_insert_ne by exact Hn. lia.
  - rewrite lookup_insert_ne by congruence. lia.
Qed.

Lemma raw_of_record_evidence (cat cat' : string) (e : Evidence) (a : Aggregate) :
  raw_of (record_evidence cat e a) cat' =
  (raw_of a cat' ++ (if String.eqb cat' cat then [e] else []))%list.
Proof.
  unfold raw_of, record_evidence. simpl.
  destruct (String.eqb_spec cat' cat) as [->|Hc].
  - now rewrite lookup_insert_eq.
  - rewrite lookup_insert_ne by congruence. now rewrite app_nil_r.
Qed.

Lemma counts_of_record_evidence (cat cat' v : string) (e : Evidence) (a : Aggregate) :
  counts_of (record_evidence cat e a) cat' v =
  counts_of a cat' v
  + (if String.eqb cat' cat && String.eqb (ev_value e) v then 1 else 0).
Proof. unfold counts_of, record_evidence. simpl. apply count_of_incr. Qed.

Lemma occurrences_app (v : string) (l1 l2 : list Evidence) :
  occurrences v (l1 ++ l2)%list = occurrences v l1 + occurrences v l2.
Proof. unfold occurrences. now rewrite List.filter_app, length_app. Qed.

Lemma occurrences_single (v : string) (e : Evidence) :
  occurrences v [e] = if String.eqb (ev_value e) v then 1 else 0.
Proof. unfold occurrences. simpl. now destruct (String.eqb (ev_value e) v). Qed.

Lemma occurrences_cons (v : string) (e : Evidence) (l : list Evidence) :
  occurrences v (e :: l) =
  (if String.eqb (ev_value e) v then 1 else 0) + occurrences v l.
Proof. unfold occurrences. simpl. now destruct (String.eqb (ev_value e) v). Qed.

Lemma lock_step_empty : lock_step empty_aggregate.
Proof. intros cat v. reflexivity. Qed.

(** The paired step keeps the two views equal. *)
Lemma lock_step_record_evidence (cat : string) (e : Evidence) (a : Aggregate) :
  lock_step a -> lock_step (record_evidence cat e a).
Proof.
  intros H cat' v.
  rewrite counts_of_record_evidence, raw_of_record_evidence, occurrences_app, H.
  f_equal. destruct (String.eqb cat' cat); simpl.
  - now rewrite occurrences_single.
  - reflexivity.
Qed.

Lemma dom_record_evidence (cat : string) (e : Evidence) (a : Aggregate) :
  dom (counts a) = dom (raw a) ->
  dom (counts (record_evidence cat e a)) = dom (raw (record_evidence cat e a)).
Proof.
  intros H. unfold record_evidence, incr. simpl.
  now rewrite !dom_insert_L, H.
Qed.

(** Everything [aggregate_dataset] does to the aggregate is a sequence of
    paired steps. *)
Section Closure.

Variable P : Aggregate -> Prop.
Hypothesis P_record : forall cat e a, P a -> P (record_evidence cat e a).

Lemma foldl_closed {A : Type} (f : Aggregate -> A -> Aggregate) (l : list A) :
  (forall a x, P a -> P (f a x)) -> forall a, P a -> P (foldl f a l).
Proof.
  intros Hf. induction l as [|x l IH]; intros a Ha; simpl; [exact Ha|].
  apply IH, Hf, Ha.
Qed.

Lemma aggregate_ident_closed rid k role cat ident a :
  P a -> P (aggregate_ident rid k role cat ident a).
Proof.
  intros Ha. unfold aggregate_ident.
  repeat match goal with
         | |- context [if ?b then _ else _] => destruct b
         end; auto.
Qed.

Lemma aggregate_component_closed env rid k comp a :
  P a -> P (aggregate_component env rid k comp a).
Proof.
  unfold aggregate_component. apply foldl_closed.
  intros a' x. apply aggregate_ident_closed.
Qed.

Lemma aggregate_input_closed env rid slot a :
  P a -> P (aggregate_input env rid slot a).
Proof.
  unfold aggregate_input. apply foldl_closed.
  intros a' x. apply aggregate_component_closed.
Qed.

Lemma aggregate_reaction_closed env rid rxn a :
  P a -> P (aggregate_reaction env rid rxn a).
Proof.
  unfold aggregate_reaction. apply foldl_closed.
  intros a' x. apply aggregate_input_closed.
Qed.

Lemma aggregate_item_closed env item a :
  P a -> P (aggregate_item env item a).
Proof.
  intros Ha. unfold aggregate_item.
  destruct (negb _); [exact Ha|].
  destruct (_ && _); [|exact Ha].
  destruct (parse_proto _ _); [|exact Ha].
  now apply aggregate_reaction_closed.
Qed.

Lemma aggregate_items_closed env items :
  P empty_aggregate -> P (aggregate_items env items).
Proof.
  unfold aggregate_items. apply foldl_closed.
  intros a' x. apply aggregate_item_closed.
Qed.

End Closure.

Lemma aggregate_dataset_returns env fetched data :
  aggregate_dataset env fetched = Returned data <->
  exists items, fetched = Returned items /\ data = aggregate_items env items.
Proof.
  unfold aggregate_dataset, bind_outcome. destruct fetched as [items|e]; split.
  - intros [= <-]. now exists items.
  - intros (items' & [= <-] & ->). reflexivity.
  - discriminate.
  - intros (items' & H & _). discriminate.
Qed.

(** C1. Whenever [aggregate_dataset] returns, the aggregate it returns was
    built from the empty one by the paired step only (one append to
    [raw[cat]] with each increment of [counts[cat][v]]); for every category
    and every value string, [counts[cat][v]] is the number of items of
    [raw[cat]] whose value is [v]; and the two tables have the same
    categories. *)
Theorem aggregate_dataset_lock_step env fetched data :
  aggregate_dataset env fetched = Returned data ->
  Accumulated data
  /\ (forall cat v, counts_of data cat v = occurrences v (raw_of data cat))
  /\ dom (counts data) = dom (raw data).
Proof.
  intros H. apply aggregate_dataset_returns in H as (items & _ & ->).
  split; [|split].
  - apply aggregate_items_closed; constructor; assumption.
  - apply (aggregate_items_closed lock_step).
    + intros cat e a. apply lock_step_record_evidence.
    + apply lock_step_empty.
  - apply (aggregate_items_closed (fun a => dom (counts a) = dom (raw a))).
    + intros cat e a. apply dom_record_evidence.
    + reflexivity.
Qed.

End AggregateFacts.

(* ================================================================== *)
(** * Slot categories and role-based classification *)
(* ================================================================== *)

Module SlotFacts.

Import Text Re Scraper TextFacts ReFacts AggregateFacts.

(** ** Reading a pattern through a character map *)

Lemma Comap_nullable f r r' : Comap f r r' -> nullable r' = nullable r.
Proof. induction 1; simpl; congruence. Qed.

Lemma Comap_mk_cat f r1 r2 r1' r2' :
  Comap f r1 r1' -> Comap f r2 r2' -> Comap f (mk_cat r1 r2) (mk_cat r1' r2').
Proof.
  intros H1 H2.
  destruct H1; simpl; auto; constructor; auto; constructor; auto.
Qed.

Lemma Comap_mk_alt f r1 r2 r1' r2' :
  Comap f r1 r1' -> Comap f r2 r2' -> Comap f (mk_alt r1 r2) (mk_alt r1' r2').
Proof.
  intros H1 H2.
  destruct H1; destruct H2; simpl; auto;
    constructor; auto; constructor; auto; constructor; auto.
Qed.

Lemma Comap_deriv f c r r' :
  Comap f r r' -> Comap f (deriv (f c) r) (deriv c r').
Proof.
  induction 1 as [| |p q Hpq|r1 r2 r1' r2' H1 IH1 H2 IH2
                  |r1 r2 r1' r2' H1 IH1 H2 IH2|r r' H IH]; simpl.
  - constructor.
  - constructor.
  - rewrite Hpq. destruct (p (f c)); constructor.
  - rewrite (Comap_nullable f r1 r1' H1). destruct (nullable r1).
    + apply Comap_mk_alt; [apply Comap_mk_cat|]; assumption.
    + apply Comap_mk_cat; assumption.
  - apply Comap_mk_alt; assumption.
  - apply Comap_mk_cat; [assumption | now constructor].
Qed.

(** Matching the mapped pattern is matching the pattern on the mapped
    string; for [lower_char] this is what the [(?i)] flag does to a
    pattern written in lower case. *)
Lemma Comap_fullmatch_lower r r' s :
  Comap lower_char r r' -> fullmatch r' s = fullmatch r (lower s).
Proof.
  revert r r'. induction s as [|c s IH]; intros r r' H; simpl.
  - now apply Comap_nullable with (f := lower_char).
  - apply IH. now apply Comap_deriv.
Qed.

Lemma SLOT_RE_Comap : Comap lower_char SLOT_RE_cs SLOT_RE.
Proof.
  assert (Hm : Comap lower_char (chr "m") (chr_i "m")).
  { constructor. intros c. destruct c as [[] [] [] [] [] [] [] []]; reflexivity. }
  assert (Hu : Comap lower_char (chr "_") (chr "_")).
  { constructor. intros c. destruct c as [[] [] [] [] [] [] [] []]; reflexivity. }
  assert (Hd : Comap lower_char (plus digit) (plus digit)).
  { assert (Hd : Comap lower_char digit digit).
    { constructor. intros c. destruct c as [[] [] [] [] [] [] [] []]; reflexivity. }
    unfold plus. constructor; [exact Hd | constructor; exact Hd]. }
  unfold SLOT_RE, SLOT_RE_cs.
  repeat first [exact Hm | exact Hu | exact Hd | constructor].
Qed.

(** The case-insensitive pattern on the key is the plain pattern on the
    lowercased key. *)
Lemma SLOT_RE_lower (k : string) :
  fullmatch SLOT_RE k = fullmatch SLOT_RE_cs (lower k).
Proof. apply Comap_fullmatch_lower, SLOT_RE_Comap. Qed.

(** ** The patterns on sample strings *)

Example SLOT_RE_accepts :
  map (fullmatch SLOT_RE) ["m1"; "M1"; "m12_m3"; "M1_m2_M30"]
  = [true; true; true; true].
Proof. vm_compute. reflexivity. Qed.

Example SLOT_RE_rejects :
  map (fullmatch SLOT_RE) [""; "m"; "m1_"; "m1_2"; "xm1"; "m1 "; "m1_m"; "base"]
  = [false; false; false; false; false; false; false; false].
Proof. vm_compute. reflexivity. Qed.

Example NUMERIC_RE_samples :
  map (fullmatch NUMERIC_RE) ["1.0"; "50 %"; "12"; " "; ""; "1.0 eq"; "K2CO3"; "5 mL"]
  = [true; true; true; true; false; false; false; false].
Proof. vm_compute. reflexivity. Qed.

(** [.] stops at a newline; the alkoxide and amine patterns are found
    anywhere in the string. *)
Example search_samples :
  search ARYL_HALIDE_RE "c1ccccc1br" = true
  /\ search ARYL_HALIDE_RE (String "c" (String "010" "br")) = false
  /\ search ALKOXIDE_RE "cc(c)(c)[o-].[k+]" = true
  /\ search ALKOXIDE_RE "[k+].[o-]c" = false
  /\ search BASE_RE "potassium tertbutoxide" = true
  /\ search AMINE_RE "c1ccccc1n2" = true
  /\ search AMINE_RE "nh3" = false.
Proof. vm_compute. repeat split. Qed.

Example cat_by_key_samples :
  map cat_by_key ["Base"; "CATALYST"; "Aryl Halide"; "M1_m2"; "reagents"; "m1_"]
  = [Some "Base"; Some "Metal"; Some "aryl halide"; Some "M1_m2"; None; None].
Proof. vm_compute. reflexivity. Qed.

(** ** The category of a slot *)

Lemma INPUT_KEY_CATEGORY_MAP_truthy (key cat : string) :
  INPUT_KEY_CATEGORY_MAP !! key = Some cat -> truthy cat = true.
Proof.
  unfold INPUT_KEY_CATEGORY_MAP. intros H.
  apply elem_of_list_to_map_2 in H.
  repeat (apply elem_of_cons in H as [[= -> ->] | H]; [reflexivity|]).
  now apply elem_of_nil in H.
Qed.

Lemma cat_by_key_found (k : string) :
  is_Some (INPUT_KEY_CATEGORY_MAP !! lower k)
  \/ fullmatch SLOT_RE_cs (lower k) = true ->
  let cat := default k (INPUT_KEY_CATEGORY_MAP !! lower k) in
  cat_by_key k = Some cat /\ truthy cat = true.
Proof.
  intros H. unfold cat_by_key. rewrite SLOT_RE_lower.
  destruct (INPUT_KEY_CATEGORY_MAP !! lower k) as [c|] eqn:Hc; simpl.
  - pose proof (INPUT_KEY_CATEGORY_MAP_truthy _ _ Hc) as Ht.
    rewrite Ht. simpl. auto.
  - destruct H as [[c Hs] | Hm]; [discriminate|].
    rewrite Hm. split; [reflexivity|].
    destruct k; [discriminate Hm | reflexivity].
Qed.

(** Conversely a key outside the map that does not match has no
    category. *)
Lemma cat_by_key_None (k : string) :
  cat_by_key k = None <->
  INPUT_KEY_CATEGORY_MAP !! lower k = None
  /\ fullmatch SLOT_RE_cs (lower k) = false.
Proof.
  unfold cat_by_key. rewrite SLOT_RE_lower.
  destruct (INPUT_KEY_CATEGORY_MAP !! lower k) as [c|] eqn:Hc; simpl.
  - rewrite (INPUT_KEY_CATEGORY_MAP_truthy _ _ Hc). simpl.
    split; [discriminate | intros [? _]; discriminate].
  - destruct (fullmatch SLOT_RE_cs (lower k)); split;
      try discriminate; auto; intros [_ ?]; discriminate.
Qed.

(** ** Recording a list of items *)

Lemma record_all_app cat es1 es2 a :
  record_all cat (es1 ++ es2)%list a = record_all cat es2 (record_all cat es1 a).
Proof. unfold record_all. apply foldl_app. Qed.

Lemma raw_of_record_all cat es a c :
  raw_of (record_all cat es a) c =
  (raw_of a c ++ (if String.eqb c cat then es else []))%list.
Proof.
  revert a. induction es as [|e es IH]; intros a.
  - simpl. destruct (String.eqb c cat); now rewrite app_nil_r.
  - change (record_all cat (e :: es) a)
      with (record_all cat es (record_evidence cat e a)).
    rewrite IH, raw_of_record_evidence.
    destruct (String.eqb c cat); rewrite <- app_assoc; reflexivity.
Qed.

Lemma counts_of_record_all cat es a c v :
  counts_of (record_all cat es a) c v =
  counts_of a c v + (if String.eqb c cat then occurrences v es else 0).
Proof.
  revert a. induction es as [|e es IH]; intros a.
  - unfold occurrences. simpl. destruct (String.eqb c cat); simpl; lia.
  - change (record_all cat (e :: es) a)
      with (record_all cat es (record_evidence cat e a)).
    rewrite IH, counts_of_record_evidence.
    rewrite occurrences_cons.
    destruct (String.eqb c cat); simpl; lia.
Qed.

Lemma aggregate_component_slot env rid k comp a cat :
  cat_by_key k = Some cat -> truthy cat = true ->
  aggregate_component env rid k comp a =
  record_all cat (component_evidence env rid k comp) a.
Proof.
  intros Hk Ht. unfold aggregate_component, component_evidence, record_all.
  rewrite Hk. revert a.
  induction (identifiers comp) as [|ident ids IH]; intros a; simpl; [reflexivity|].
  rewrite <- IH. f_equal. unfold aggregate_ident. simpl. now rewrite Ht.
Qed.

Lemma aggregate_input_slot env rid k inp a cat :
  cat_by_key k = Some cat -> truthy cat = true ->
  aggregate_input env rid (k, inp) a =
  record_all cat (slot_evidence env rid k inp) a.
Proof.
  intros Hk Ht. unfold aggregate_input, slot_evidence. simpl. revert a.
  induction (components inp) as [|comp comps IH]; intros a; simpl; [reflexivity|].
  rewrite record_all_app, IH. f_equal.
  now apply aggregate_component_slot.
Qed.

(** C2. If the lowercased slot key is in the fixed key-to-category map, or
    fully matches [m<N>(_m<N>)*], the slot has one category (the mapped
    one, else the key itself) and processing the slot records every
    identifier of every component under that category and nowhere else:
    the raw list of that category grows by all of the slot's items, in
    order, its counts grow by their occurrences, and every other category
    is left as it was.  No test of the value or of the role is involved. *)
Theorem slot_category_records_every_identifier env rid k inp a :
  is_Some (INPUT_KEY_CATEGORY_MAP !! lower k)
  \/ fullmatch SLOT_RE_cs (lower k) = true ->
  let cat := default k (INPUT_KEY_CATEGORY_MAP !! lower k) in
  let es := slot_evidence env rid k inp in
  let a' := aggregate_input env rid (k, inp) a in
  cat_by_key k = Some cat
  /\ a' = record_all cat es a
  /\ (forall c, raw_of a' c =
                (raw_of a c ++ (if String.eqb c cat then es else []))%list)
  /\ (forall c v, counts_of a' c v =
                  counts_of a c v
                  + (if String.eqb c cat then occurrences v es else 0)).
Proof.
  intros H cat es a'.
  destruct (cat_by_key_found k H) as [Hk Ht]. fold cat in Hk, Ht.
  assert (Ha : a' = record_all cat es a)
    by (now apply aggregate_input_slot).
  split; [exact Hk|]. split; [exact Ha|]. split.
  - intros c. rewrite Ha. apply raw_of_record_all.
  - intros c v. rewrite Ha. apply counts_of_record_all.
Qed.

(** ** Reagents and reactants in a slot without category *)

Lemma aggregate_ident_reagent rid k role ty v a :
  role = "REAGENT" \/ role = "REACTANT" ->
  aggregate_ident rid k role None (ty, v) a =
  let e := mkEvidence rid k role ty v in
  let a1 := if _is_base_ident v then record_evidence "Base" e a else a in
  let a2 := if _is_amine_ident v then record_evidence "amine" e a1 else a1 in
  if _is_aryl_halide_ident v then record_evidence "aryl halide" e a2 else a2.
Proof. intros [-> | ->]; reflexivity. Qed.

(** Case analysis on which of the three categories [c] is, if any. *)
Ltac split_category c :=
  destruct (String.eqb c "Base") eqn:?;
  destruct (String.eqb c "amine") eqn:?;
  destruct (String.eqb c "aryl halide") eqn:?;
  try (exfalso;
       repeat match goal with
              | H : String.eqb _ _ = true |- _ => apply String.eqb_eq in H
              end;
       congruence).

Lemma raw_of_aggregate_ident_reagent rid k role ty v a c :
  role = "REAGENT" \/ role = "REACTANT" ->
  raw_of (aggregate_ident rid k role None (ty, v) a) c =
  (raw_of a c
   ++ (if reagent_test c v then [mkEvidence rid k role ty v] else []))%list.
Proof.
  intros Hrole. rewrite (aggregate_ident_reagent _ _ _ _ _ _ Hrole). cbv zeta.
  unfold reagent_test.
  destruct (_is_base_ident v), (_is_amine_ident v), (_is_aryl_halide_ident v);
    rewrite ?raw_of_record_evidence, ?andb_true_r, ?andb_false_r;
    split_category c; simpl; rewrite ?app_nil_r; reflexivity.
Qed.

Lemma counts_of_aggregate_ident_reagent rid k role ty v a c w :
  role = "REAGENT" \/ role = "REACTANT" ->
  counts_of (aggregate_ident rid k role None (ty, v) a) c w =
  counts_of a c w + (if reagent_test c v && String.eqb v w then 1 else 0).
Proof.
  intros Hrole. rewrite (aggregate_ident_reagent _ _ _ _ _ _ Hrole). cbv zeta.
  unfold reagent_test.
  destruct (_is_base_ident v), (_is_amine_ident v), (_is_aryl_halide_ident v);
    rewrite ?counts_of_record_evidence, ?andb_true_r, ?andb_false_r;
    split_category c; simpl; destruct (String.eqb v w); simpl; lia.
Qed.

(** C3. In a slot without category, a component whose role is REAGENT or
    REACTANT has the Base, amine and aryl halide tests applied to each
    identifier independently: for every category, the raw list grows by
    exactly the component's items whose value passes that category's
    test, and the counts by their occurrences.  A component whose only
    identifier is "triethylamine" is recorded under Base and under amine,
    and under nothing else. *)
Theorem reagent_tests_are_independent env rid k comp a :
  cat_by_key k = None ->
  (let role := _enum_name (ReactionRoleType_Name env) (reaction_role comp) in
   role = "REAGENT" \/ role = "REACTANT") ->
  let es := component_evidence env rid k comp in
  let a' := aggregate_component env rid k comp a in
  (forall c, raw_of a' c =
             (raw_of a c
              ++ List.filter (fun e => reagent_test c (ev_value e)) es)%list)
  /\ (forall c v, counts_of a' c v =
                  counts_of a c v
                  + occurrences v
                      (List.filter (fun e => reagent_test c (ev_value e)) es))
  /\ (forall ty, identifiers comp = [mkIdent ty "triethylamine"] ->
      exists e, es = [e]
        /\ a' = record_evidence "amine" e (record_evidence "Base" e a)
        /\ raw_of a' "Base" = (raw_of a "Base" ++ [e])%list
        /\ raw_of a' "amine" = (raw_of a "amine" ++ [e])%list
        /\ raw_of a' "aryl halide" = raw_of a "aryl halide").
Proof.
  intros Hk Hrole es a'. cbv zeta in Hrole.
  subst es a'. unfold aggregate_component, component_evidence. rewrite Hk.
  set (role := _enum_name (ReactionRoleType_Name env) (reaction_role comp)) in *.
  split; [|split].
  - intros c. revert a.
    induction (identifiers comp) as [|ident ids IH]; intros a; simpl.
    + now rewrite app_nil_r.
    + rewrite IH, raw_of_aggregate_ident_reagent by exact Hrole.
      rewrite <- app_assoc. f_equal.
      now destruct (reagent_test c (ident_value ident)).
  - intros c v. revert a.
    induction (identifiers comp) as [|ident ids IH]; intros a; simpl.
    + unfold occurrences. simpl. lia.
    + rewrite IH, counts_of_aggregate_ident_reagent by exact Hrole.
      destruct (reagent_test c (ident_value ident)); simpl.
      * rewrite occurrences_cons. simpl. lia.
      * lia.
  - intros ty Hids. rewrite Hids. simpl.
    rewrite (aggregate_ident_reagent _ _ _ _ _ _ Hrole). cbv zeta.
    replace (_is_base_ident "triethylamine") with true by (vm_compute; reflexivity).
    replace (_is_amine_ident "triethylamine") with true by (vm_compute; reflexivity).
    replace (_is_aryl_halide_ident "triethylamine") with false by (vm_compute; reflexivity).
    eexists. split; [reflexivity|]. split; [reflexivity|].
    rewrite !raw_of_record_evidence. simpl.
    now rewrite !app_nil_r.
Qed.

End SlotFacts.

(* ================================================================== *)
(** * The tabular pass of the HTML extractor *)
(* ================================================================== *)

Module HtmlFacts.

Import Text Re Scraper Samples TextFacts.

(** What [List.find] returns is the first element that passes. *)
Lemma find_first {A : Type} (p : A -> bool) (l : list A) (x : A) :
  List.find p l = Some x <->
  exists l1 l2, l = (l1 ++ x :: l2)%list /\ p x = true
                /\ Forall (fun y => p y = false) l1.
Proof.
  induction l as [|y l IH]; simpl.
  - split; [discriminate | intros ([|? ?] & l2 & E & _); discriminate].
  - destruct (p y) eqn:Hy.
    + split.
      * intros [= ->]. exists [], l. repeat split; [exact Hy | constructor].
      * intros (l1 & l2 & E & Hx & Hall). destruct l1 as [|z l1]; simpl in E.
        -- congruence.
        -- injection E as -> ->. inversion Hall; congruence.
    + rewrite IH. split.
      * intros (l1 & l2 & -> & Hx & Hall). exists (y :: l1), l2.
        repeat split; [exact Hx | now constructor].
      * intros (l1 & l2 & E & Hx & Hall). destruct l1 as [|z l1]; simpl in E.
        -- congruence.
        -- injection E as -> ->. inversion Hall; subst. eauto.
Qed.

(** A category is the first match exactly when its test passes and the
    tests before it in the priority order fail. *)
Lemma first_match_Some (nm c : string) :
  first_match nm = Some c <->
  exists before t after,
    PRIORITY = (before ++ (c, t) :: after)%list /\ t nm = true
    /\ Forall (fun e => e.2 nm = false) before.
Proof.
  unfold first_match. split.
  - destruct (List.find _ PRIORITY) as [[c' t]|] eqn:Hf; [|discriminate].
    intros [= <-]. apply find_first in Hf as (l1 & l2 & E & Ht & Hall).
    now exists l1, t, l2.
  - intros (l1 & t & l2 & E & Ht & Hall).
    assert (Hf : List.find (fun e => e.2 nm) PRIORITY = Some (c, t)).
    { apply find_first. now exists l1, l2. }
    now rewrite Hf.
Qed.

(** The priority list read as a chain of tests. *)
Lemma first_match_unfold (nm : string) :
  first_match nm =
  if any_in BASE_KEYWORDS nm then Some "Base"
  else if any_in AMINE_KEYWORDS nm then Some "amine"
  else if any_in LIGAND_KEYWORDS nm then Some "Ligand"
  else if any_in METAL_KEYWORDS nm then Some "Metal"
  else if any_in ARYL_HALIDE_KEYWORDS nm
          || (contains "br" nm && contains "c" nm)
          || (contains "cl" nm && contains "c" nm)
          || (contains "i" nm && contains "c" nm)
  then Some "aryl halide"
  else None.
Proof.
  unfold first_match, PRIORITY. cbn [List.find snd].
  repeat match goal with
         | |- context [if ?b then _ else _] => destruct b; [reflexivity|]
         end.
  reflexivity.
Qed.

Lemma reagent_label (label : string) :
  in_tuple (lower label) ["reagent"; "reactant"] = true ->
  lower label = "reagent" \/ lower label = "reactant".
Proof.
  rewrite in_tuple_iff. simpl. intros [H | [H | []]]; auto.
Qed.

(** C4. For a label that reads reagent or reactant, [_classify_from_text]
    returns the first category, in the order Base, amine, Ligand, Metal,
    aryl halide (keywords or halogen heuristic), whose test the lowercased
    name passes, and none when no test passes; so a name with a Base
    keyword is Base alone, whatever else it matches. *)
Theorem classify_from_text_first_match name label :
  in_tuple (lower label) ["reagent"; "reactant"] = true ->
  _classify_from_text name label = first_match (lower name)
  /\ (any_in BASE_KEYWORDS (lower name) = true ->
      _classify_from_text name label = Some "Base")
  /\ (any_in BASE_KEYWORDS (lower name) = false ->
      any_in AMINE_KEYWORDS (lower name) = true ->
      _classify_from_text name label = Some "amine").
Proof.
  intros Hl.
  assert (E : _classify_from_text name label = first_match (lower name)).
  { rewrite first_match_unfold. unfold _classify_from_text. rewrite Hl.
    destruct (reagent_label label Hl) as [-> | ->]; reflexivity. }
  split; [exact E|]. rewrite E, first_match_unfold. split.
  - intros ->. reflexivity.
  - intros -> ->. reflexivity.
Qed.

(** ** Which cells the name scan reads *)

Lemma all_but_last_snoc (cells : list string) (x : string) :
  all_but_last (cells ++ [x])%list = cells.
Proof. unfold all_but_last. apply removelast_last. Qed.

(** The name of a row does not depend on its last cell. *)
Lemma row_name_ignores_last_cell (cells : list string) (x y : string)
    (link : option string) :
  row_name (mkRow (cells ++ [x])%list link)
  = row_name (mkRow (cells ++ [y])%list link).
Proof. unfold row_name. simpl. now rewrite !all_but_last_snoc. Qed.

(** C5 (as stated, refuted). On the row ["1.0 eq", "K2CO3", "Reagent"]
    none of the steps after the label happens as the specification's
    example has it: "1.0 eq" does not match the numeric pattern and is not
    skipped, "K2CO3" is not the name, "carbonate" does not occur in
    "k2co3", the row gives no (Base, "K2CO3") evidence and its count is
    not 1. *)
Lemma row_1_0_eq_not_as_claimed :
  fullmatch NUMERIC_RE "1.0 eq" <> true
  /\ row_name row_1_0_eq <> Some "K2CO3"
  /\ contains "carbonate" (lower "K2CO3") <> true
  /\ row_evidence row_1_0_eq <> Some ("Base", "K2CO3")
  /\ count_of (extract_components_rows [row_1_0_eq]) "Base" "K2CO3" <> 1.
Proof.
  repeat split; intros H; vm_compute in H; discriminate H.
Qed.

(** C5 (amended). On the row ["1.0 eq", "K2CO3", "Reagent"] the label is
    "Reagent"; "1.0 eq" does not fully match [[0-9 .%]+], so the scan
    picks it as the name; no keyword test passes on it and the row
    records nothing.  With a purely numeric first cell, "1.0", the scan
    skips it and picks "K2CO3", which is Base through the keyword "k2co3"
    (not "carbonate"), and (Base, "K2CO3") is recorded with count 1. *)
Theorem row_with_unit_amount_records_nothing (link : option string) :
  (row_label ["1.0 eq"; "K2CO3"; "Reagent"] = Some "Reagent"
   /\ fullmatch NUMERIC_RE "1.0 eq" = false
   /\ row_name (mkRow ["1.0 eq"; "K2CO3"; "Reagent"] link) = Some "1.0 eq"
   /\ _classify_from_text "1.0 eq" "Reagent" = None
   /\ row_evidence (mkRow ["1.0 eq"; "K2CO3"; "Reagent"] link) = None
   /\ extract_components_rows [mkRow ["1.0 eq"; "K2CO3"; "Reagent"] link] = ∅)
  /\ (row_label ["1.0"; "K2CO3"; "Reagent"] = Some "Reagent"
      /\ fullmatch NUMERIC_RE "1.0" = true
      /\ row_name (mkRow ["1.0"; "K2CO3"; "Reagent"] link) = Some "K2CO3"
      /\ contains "carbonate" (lower "K2CO3") = false
      /\ contains "k2co3" (lower "K2CO3") = true
      /\ _classify_from_text "K2CO3" "Reagent" = Some "Base"
      /\ row_evidence (mkRow ["1.0"; "K2CO3"; "Reagent"] link)
         = Some ("Base", "K2CO3")
      /\ count_of
           (extract_components_rows [mkRow ["1.0"; "K2CO3"; "Reagent"] link])
           "Base" "K2CO3" = 1).
Proof.
  split; repeat split; vm_compute; reflexivity.
Qed.

(** C6 (the code at the failing input). In the row ["Reagent", "K2CO3"]
    the label is the first cell and the name candidate the last one; the
    scan reads [cells[:-1]], which is the label cell alone, finds no
    name, and the row records nothing, while the same two cells in the
    other order record (Base, "K2CO3").  In general the last cell of a
    row never takes part in the scan. *)
Theorem label_first_row_records_nothing :
  row_label ["Reagent"; "K2CO3"] = Some "Reagent"
  /\ all_but_last ["Reagent"; "K2CO3"] = ["Reagent"]
  /\ row_name (mkRow ["Reagent"; "K2CO3"] None) = None
  /\ row_evidence (mkRow ["Reagent"; "K2CO3"] None) = None
  /\ row_evidence (mkRow ["K2CO3"; "Reagent"] None) = Some ("Base", "K2CO3")
  /\ (forall cells x y link,
        row_name (mkRow (cells ++ [x])%list link)
        = row_name (mkRow (cells ++ [y])%list link)).
Proof.
  repeat split; try (vm_compute; reflexivity).
  intros cells x y link. apply row_name_ignores_last_cell.
Qed.

End HtmlFacts.

(* ================================================================== *)
(** * The orchestrator: output filters, dataset loop, poll loop *)
(* ================================================================== *)

Module OrchestratorFacts.

Import Text Re Scraper Samples TextFacts AggregateFacts.

(** ** The SMILES-only filter *)

Lemma filter_all {A : Type} (l : list A) : List.filter (fun _ => true) l = l.
Proof. induction l as [|x l IH]; simpl; [reflexivity | now rewrite IH]. Qed.

(** C7. With the SMILES-only filter alone, the stored aggregate has the
    counts tables of the unfiltered one, untouched, and each raw list
    replaced by its sublist of SMILES items, under the same categories.
    Together with the Base-only filter the same holds of the Base-only
    output.  The counts are not recomputed: on a dataset with one
    non-SMILES Base item the filtered raw list is empty and the count is
    still 1. *)
Theorem smiles_filter_leaves_counts (data : Aggregate) :
  counts (filter_output (mkArgs false true) data) = counts data
  /\ raw (filter_output (mkArgs false true) data)
     = (List.filter is_smiles <$> raw data)
  /\ (forall cat, raw_of (filter_output (mkArgs false true) data) cat
                  = List.filter is_smiles (raw_of data cat))
  /\ dom (raw (filter_output (mkArgs false true) data)) = dom (raw data)
  /\ counts (filter_output (mkArgs true true) data)
     = counts (filter_output (mkArgs true false) data)
  /\ raw (filter_output (mkArgs true true) data)
     = (List.filter is_smiles <$> raw (filter_output (mkArgs true false) data))
  /\ (let d := record_evidence "Base"
                 (mkEvidence "ord-1" "base" "REAGENT" "NAME" "K2CO3")
                 empty_aggregate in
      lock_step d
      /\ raw_of (filter_output (mkArgs false true) d) "Base" = []
      /\ counts_of (filter_output (mkArgs false true) d) "Base" "K2CO3" = 1).
Proof.
  split; [reflexivity|]. split; [reflexivity|]. split; [|split; [|split; [|split]]].
  - intros cat. unfold filter_output. simpl.
    unfold raw_of. simpl. rewrite lookup_fmap. now destruct (raw data !! cat).
  - unfold filter_output. simpl. apply dom_fmap_L.
  - reflexivity.
  - unfold filter_output. simpl. rewrite map_fmap_singleton. f_equal.
    now rewrite filter_all.
  - cbv zeta. split; [|split].
    + apply lock_step_record_evidence, lock_step_empty.
    + vm_compute. reflexivity.
    + vm_compute. reflexivity.
Qed.

(** ** The loop over the target ids *)

Lemma main_loop_app env args l1 l2 :
  main_loop env args (l1 ++ l2)%list
  = foldl (main_step env args) (main_loop env args l1) l2.
Proof. unfold main_loop. apply foldl_app. Qed.

Lemma main_step_lookup env args result t d :
  main_step env args result t !! d =
  match t.2 with
  | Returned items =>
      if String.eqb t.1 d
      then Some (filter_output args (aggregate_items env items))
      else result !! d
  | Raised _ => result !! d
  end.
Proof.
  unfold main_step, aggregate_dataset, bind_outcome.
  destruct t as [did [items|e]]; simpl; [|reflexivity].
  destruct (String.eqb_spec did d) as [->|Hne].
  - apply lookup_insert_eq.
  - now apply lookup_insert_ne.
Qed.

(** What the loop leaves under [d] depends only on what it started with
    under [d]. *)
Lemma foldl_main_step_lookup env args l m1 m2 d :
  m1 !! d = m2 !! d ->
  foldl (main_step env args) m1 l !! d = foldl (main_step env args) m2 l !! d.
Proof.
  revert m1 m2. induction l as [|t l IH]; intros m1 m2 H; simpl; [exact H|].
  apply IH. rewrite !main_step_lookup. destruct (t.2); [|exact H].
  destruct (String.eqb t.1 d); [reflexivity | exact H].
Qed.

Lemma foldl_step_untouched env args l m d :
  d ∉ target_ids l -> foldl (main_step env args) m l !! d = m !! d.
Proof.
  revert m. induction l as [|t l IH]; intros m H; simpl; [reflexivity|].
  unfold target_ids in H. simpl in H.
  rewrite not_elem_of_cons in H. destruct H as [Hne Hl].
  rewrite (IH _ Hl), main_step_lookup. destruct (t.2); [|reflexivity].
  destruct (String.eqb_spec t.1 d); [congruence | reflexivity].
Qed.

(** A dataset whose last processing in the run returns gets the filtered
    aggregate of what was fetched then. *)
Lemma main_loop_lookup_returned env args l3 D2 items l4 :
  D2 ∉ target_ids l4 ->
  main_loop env args (l3 ++ (D2, Returned items) :: l4)%list !! D2
  = Some (filter_output args (aggregate_items env items)).
Proof.
  intros H. rewrite main_loop_app. simpl.
  rewrite (foldl_step_untouched _ _ _ _ _ H), main_step_lookup. simpl.
  now rewrite String.eqb_refl.
Qed.

(** C8. If the processing of dataset [D] raises, the loop goes on and ends
    with the result it would have without [D] in the list at that place;
    [D] is absent from the result (when it is processed nowhere else in
    the run); every other dataset has the entry it would have had if the
    processing of [D] had returned; and a dataset whose processing
    returns has the aggregate of its own records, whatever failed before
    or after it. *)
Theorem failed_dataset_is_omitted env args l1 D e l2 :
  main_loop env args (l1 ++ (D, Raised e) :: l2)%list
  = main_loop env args (l1 ++ l2)%list
  /\ (D ∉ target_ids (l1 ++ l2) ->
      main_loop env args (l1 ++ (D, Raised e) :: l2)%list !! D = None)
  /\ (forall items D2, D2 <> D ->
      main_loop env args (l1 ++ (D, Raised e) :: l2)%list !! D2
      = main_loop env args (l1 ++ (D, Returned items) :: l2)%list !! D2)
  /\ (forall l3 D2 items l4,
      (l1 ++ l2)%list = (l3 ++ (D2, Returned items) :: l4)%list ->
      D2 ∉ target_ids l4 ->
      main_loop env args (l1 ++ (D, Raised e) :: l2)%list !! D2
      = Some (filter_output args (aggregate_items env items))).
Proof.
  assert (Hskip : main_loop env args (l1 ++ (D, Raised e) :: l2)%list
                  = main_loop env args (l1 ++ l2)%list).
  { rewrite !main_loop_app. reflexivity. }
  split; [exact Hskip|]. split; [|split].
  - intros H. rewrite Hskip. unfold main_loop.
    rewrite (foldl_step_untouched _ _ _ _ _ H). apply lookup_empty.
  - intros items D2 Hne. rewrite !main_loop_app. simpl.
    apply foldl_main_step_lookup. rewrite !main_step_lookup. simpl.
    destruct (String.eqb_spec D D2); [congruence | reflexivity].
  - intros l3 D2 items l4 E H. rewrite Hskip, E.
    now apply main_loop_lookup_returned.
Qed.

(** ** The poll loop *)

Lemma fetch_query_result_waiting tid timeout pre rest :
  forallb (waiting timeout) pre = true ->
  fetch_query_result tid timeout (pre ++ rest)%list
  = fetch_query_result tid timeout rest.
Proof.
  induction pre as [|st pre IH]; simpl; [reflexivity|].
  intros H. apply andb_true_iff in H as [Hst Hpre].
  destruct st as [e | r elapsed]; simpl in Hst; [discriminate|].
  apply andb_true_iff in Hst as [Hs Hq].
  apply Z.eqb_eq in Hs. rewrite Hs, Hq. simpl. now apply IH.
Qed.

(** A not-ready response that arrives after the timeout ends the call:
    the ready response behind it is never polled. *)
Example fetch_query_result_late_round :
  fetch_query_result "t1" 120
    [ GetReturns (mkResponse 202 (Raised (OtherException "no body"))) 121;
      GetReturns sample_ready 122 ]
  = (Some (Raised (TimeoutError "Timeout waiting for task t1")),
     [GetReturns sample_ready 122]).
Proof. vm_compute. reflexivity. Qed.

(** The elapsed time is looked at after a not-ready response only: a ready
    response is returned however late it arrives, and exactly [timeout]
    seconds is not yet a timeout. *)
Example fetch_query_result_late_ready :
  fetch_query_result "t1" 120
    [ GetReturns (mkResponse 202 (Raised (OtherException "no body"))) 120;
      GetReturns sample_ready 500 ]
  = (Some (Returned sample_items), []).
Proof. vm_compute. reflexivity. Qed.

Example fetch_query_result_statuses :
  fst (fetch_query_result "t1" 120
         [GetReturns (mkResponse 404 (Raised (OtherException "no body"))) 1])
  = Some (Raised (RuntimeError "Task t1 not found"))
  /\ fst (fetch_query_result "t1" 120
            [GetReturns (mkResponse 500 (Raised (OtherException "no body"))) 1])
     = Some (Raised (RuntimeError "Unexpected status 500 for task t1")).
Proof. vm_compute. split; reflexivity. Qed.

(** C9. After any prefix of not-ready (202) responses that arrive within
    the timeout, the next response decides the call: 200 returns its
    payload; 404 raises the not-found failure; any status other than 200,
    202 and 404 raises the unexpected-status failure; a 202 whose elapsed
    time exceeds the timeout raises the timeout failure.  In each case
    the rest of the script is left unread: nothing more is polled.  While
    only such not-ready responses have arrived the loop is still
    polling. *)
Theorem fetch_query_result_outcomes tid timeout pre r elapsed rest :
  forallb (waiting timeout) pre = true ->
  let run := fetch_query_result tid timeout (pre ++ GetReturns r elapsed :: rest)%list in
  (status_code r = 200%Z -> run = (Some (json r), rest))
  /\ (status_code r = 404%Z ->
      run = (Some (Raised (RuntimeError ("Task " ++ tid ++ " not found"))), rest))
  /\ (status_code r <> 200%Z -> status_code r <> 202%Z -> status_code r <> 404%Z ->
      run = (Some (Raised (RuntimeError
                    ("Unexpected status " ++ str_of_Z (status_code r)
                     ++ " for task " ++ tid))), rest))
  /\ (status_code r = 202%Z -> (inject_Z timeout < elapsed)%Q ->
      run = (Some (Raised (TimeoutError ("Timeout waiting for task " ++ tid))), rest))
  /\ fetch_query_result tid timeout pre = (None, []).
Proof.
  intros Hpre run. subst run.
  rewrite (fetch_query_result_waiting _ _ _ _ Hpre). simpl.
  split; [|split; [|split; [|split]]].
  - intros ->. reflexivity.
  - intros ->. reflexivity.
  - intros H200 H202 H404.
    apply Z.eqb_neq in H200, H202, H404. now rewrite H200, H202, H404.
  - intros -> Hlt. simpl.
    assert (Hq : Qle_bool elapsed (inject_Z timeout) = false).
    { destruct (Qle_bool elapsed (inject_Z timeout)) eqn:Hq; [|reflexivity].
      apply Qle_bool_iff in Hq. exfalso. now apply (Qlt_not_le _ _ Hlt). }
    now rewrite Hq.
  - rewrite <- (app_nil_r pre).
    now rewrite (fetch_query_result_waiting _ _ _ _ Hpre).
Qed.

End OrchestratorFacts.

(* ================================================================== *)
(** * string_utils.py: [shout] *)
(* ================================================================== *)

Module StringUtilsFacts.

Import Text StringUtils.





End StringUtilsFacts.

(* ================================================================== *)
(** * Concrete runs *)
(* ================================================================== *)

Module Runs.

Import Text Re Scraper Samples.
Import AggregateFacts SlotFacts HtmlFacts OrchestratorFacts.

(** C1 on the sample dataset: four fetched items, of which one has no
    reaction id and one does not decode. *)
Lemma aggregate_dataset_lock_step_run :
  aggregate_dataset sample_env (Returned sample_items)
  = Returned (aggregate_items sample_env sample_items)
  /\ (Accumulated (aggregate_items sample_env sample_items)
      /\ (forall cat v,
            counts_of (aggregate_items sample_env sample_items) cat v
            = occurrences v (raw_of (aggregate_items sample_env sample_items) cat))
      /\ dom (counts (aggregate_items sample_env sample_items))
         = dom (raw (aggregate_items sample_env sample_items))).
Proof.
  split; [reflexivity|].
  exact (aggregate_dataset_lock_step sample_env (Returned sample_items)
           (aggregate_items sample_env sample_items) eq_refl).
Defined.

(** C2 on a slot keyed "M1_m2": its three identifiers, a reagent's name and
    SMILES and a solvent's name, all land under "M1_m2". *)
Lemma slot_category_run :
  (is_Some (INPUT_KEY_CATEGORY_MAP !! lower "M1_m2")
   \/ fullmatch SLOT_RE_cs (lower "M1_m2") = true)
  /\ cat_by_key "M1_m2" = Some "M1_m2"
  /\ map ev_value
       (raw_of (aggregate_input sample_env "ord-1" ("M1_m2", sample_input)
                  empty_aggregate) "M1_m2")
     = ["triethylamine"; "CCN(CC)CC"; "THF"]
  /\ raw_of (aggregate_input sample_env "ord-1" ("M1_m2", sample_input)
               empty_aggregate) "Base" = [].
Proof.
  assert (H : is_Some (INPUT_KEY_CATEGORY_MAP !! lower "M1_m2")
              \/ fullmatch SLOT_RE_cs (lower "M1_m2") = true)
    by (right; vm_compute; reflexivity).
  split; [exact H|].
  destruct (slot_category_records_every_identifier
              sample_env "ord-1" "M1_m2" sample_input empty_aggregate H)
    as (Hk & _ & Hraw & _).
  split; [exact Hk|]. split.
  - rewrite (Hraw "M1_m2"). vm_compute. reflexivity.
  - rewrite (Hraw "Base"). vm_compute. reflexivity.
Defined.

(** C3 on a reagent with the identifiers "triethylamine" and "CCN(CC)CC"
    in a slot keyed "reagents". *)
Lemma reagent_tests_run :
  cat_by_key "reagents" = None
  /\ (_enum_name (ReactionRoleType_Name sample_env) (reaction_role sample_component)
      = "REAGENT"
      \/ _enum_name (ReactionRoleType_Name sample_env) (reaction_role sample_component)
         = "REACTANT")
  /\ map ev_value
       (raw_of (aggregate_component sample_env "ord-1" "reagents"
                  sample_component empty_aggregate) "Base")
     = ["triethylamine"]
  /\ map ev_value
       (raw_of (aggregate_component sample_env "ord-1" "reagents"
                  sample_component empty_aggregate) "amine")
     = ["triethylamine"]
  /\ counts_of (aggregate_component sample_env "ord-1" "reagents"
                  sample_component empty_aggregate) "aryl halide" "triethylamine"
     = 0.
Proof.
  assert (Hk : cat_by_key "reagents" = None) by (vm_compute; reflexivity).
  assert (Hr : _enum_name (ReactionRoleType_Name sample_env)
                 (reaction_role sample_component) = "REAGENT"
               \/ _enum_name (ReactionRoleType_Name sample_env)
                    (reaction_role sample_component) = "REACTANT")
    by (left; reflexivity).
  split; [exact Hk|]. split; [exact Hr|].
  destruct (reagent_tests_are_independent
              sample_env "ord-1" "reagents" sample_component empty_aggregate Hk Hr)
    as (Hraw & Hcount & _).
  split; [|split].
  - rewrite (Hraw "Base"). vm_compute. reflexivity.
  - rewrite (Hraw "amine"). vm_compute. reflexivity.
  - rewrite (Hcount "aryl halide" "triethylamine"). vm_compute. reflexivity.
Defined.

(** C4 on the name "Triethylamine" under the label "Reagent": Base and
    amine keywords both occur, Base is returned. *)
Lemma classify_from_text_run :
  in_tuple (lower "Reagent") ["reagent"; "reactant"] = true
  /\ any_in BASE_KEYWORDS (lower "Triethylamine") = true
  /\ any_in AMINE_KEYWORDS (lower "Triethylamine") = true
  /\ _classify_from_text "Triethylamine" "Reagent" = Some "Base".
Proof.
  assert (Hl : in_tuple (lower "Reagent") ["reagent"; "reactant"] = true)
    by (vm_compute; reflexivity).
  assert (Hb : any_in BASE_KEYWORDS (lower "Triethylamine") = true)
    by (vm_compute; reflexivity).
  split; [exact Hl|]. split; [exact Hb|]. split; [vm_compute; reflexivity|].
  exact (proj1 (proj2 (classify_from_text_first_match "Triethylamine" "Reagent" Hl)) Hb).
Defined.

Lemma sample_failed_not_elsewhere :
  "ord_dataset-b" ∉ target_ids (sample_targets_before ++ sample_targets_after).
Proof.
  intros H. unfold target_ids in H. simpl in H.
  repeat (apply elem_of_cons in H as [H | H]; [discriminate H|]).
  now apply elem_of_nil in H.
Defined.

(** C8 on a run of three datasets whose second one times out. *)
Lemma failed_dataset_run :
  ("ord_dataset-b" ∉ target_ids (sample_targets_before ++ sample_targets_after))
  /\ main_loop sample_env (mkArgs false false)
       (sample_targets_before
        ++ ("ord_dataset-b", Raised (TimeoutError "Timeout waiting for task t2"))
           :: sample_targets_after)%list
     !! "ord_dataset-b" = None
  /\ main_loop sample_env (mkArgs false false)
       (sample_targets_before
        ++ ("ord_dataset-b", Raised (TimeoutError "Timeout waiting for task t2"))
           :: sample_targets_after)%list
     !! "ord_dataset-c"
     = Some (aggregate_items sample_env [mkItem (Some "ord-9") (Some "cnhu")]).
Proof.
  split; [exact sample_failed_not_elsewhere|].
  destruct (failed_dataset_is_omitted sample_env (mkArgs false false)
              sample_targets_before "ord_dataset-b"
              (TimeoutError "Timeout waiting for task t2") sample_targets_after)
    as (_ & Habsent & _ & Hother).
  split; [exact (Habsent sample_failed_not_elsewhere)|].
  apply (Hother sample_targets_before "ord_dataset-c"
           [mkItem (Some "ord-9") (Some "cnhu")] []).
  - reflexivity.
  - apply not_elem_of_nil.
Defined.

(** C9 on two not-ready rounds followed by a ready one. *)
Lemma fetch_query_result_run :
  forallb (waiting 120) sample_not_ready = true
  /\ fetch_query_result "t1" 120
       (sample_not_ready ++ GetReturns sample_ready 2 :: [])%list
     = (Some (Returned sample_items), []).
Proof.
  assert (H : forallb (waiting 120) sample_not_ready = true)
    by (vm_compute; reflexivity).
  split; [exact H|].
  exact (proj1 (fetch_query_result_outcomes "t1" 120 sample_not_ready
                  sample_ready 2 [] H) eq_refl).
Defined.

End Runs.

(* ================================================================== *)
(** * The aggregate as a record of emitted evidence *)
(* ================================================================== *)

Module EmitsFacts.

Import Text Re Scraper ScraperRest Samples TextFacts AggregateFacts SlotFacts.

Lemma record_pairs_app ps1 ps2 a :
  record_pairs (ps1 ++ ps2)%list a = record_pairs ps2 (record_pairs ps1 a).
Proof. unfold record_pairs. apply foldl_app. Qed.

Lemma under_app c ps1 ps2 :
  under c (ps1 ++ ps2)%list = (under c ps1 ++ under c ps2)%list.
Proof. unfold under. now rewrite List.filter_app, map_app. Qed.

Lemma under_cons c p ps :
  under c (p :: ps) = ((if String.eqb p.1 c then [p.2] else []) ++ under c ps)%list.
Proof. unfold under. simpl. now destruct (String.eqb p.1 c). Qed.

Lemma raw_of_record_pairs ps a c :
  raw_of (record_pairs ps a) c = (raw_of a c ++ under c ps)%list.
Proof.
  revert a. induction ps as [|p ps IH]; intros a.
  - unfold under. simpl. now rewrite app_nil_r.
  - change (record_pairs (p :: ps) a)
      with (record_pairs ps (record_evidence p.1 p.2 a)).
    rewrite IH, raw_of_record_evidence, under_cons, <- app_assoc.
    now rewrite (String.eqb_sym c p.1).
Qed.

Lemma counts_of_record_pairs ps a c v :
  counts_of (record_pairs ps a) c v = counts_of a c v + occurrences v (under c ps).
Proof.
  revert a. induction ps as [|p ps IH]; intros a.
  - unfold under, occurrences. simpl. lia.
  - change (record_pairs (p :: ps) a)
      with (record_pairs ps (record_evidence p.1 p.2 a)).
    rewrite IH, counts_of_record_evidence, under_cons, occurrences_app.
    rewrite (String.eqb_sym c p.1).
    destruct (String.eqb p.1 c); simpl.
    + rewrite occurrences_single. lia.
    + unfold occurrences. simpl. lia.
Qed.

Lemma aggregate_ident_emits rid k role cat ident a :
  aggregate_ident rid k role cat ident a
  = record_pairs (ident_emits rid k role cat ident) a.
Proof.
  unfold aggregate_ident, ident_emits.
  repeat match goal with
         | |- context [if ?b then _ else _] => destruct b
         end; reflexivity.
Qed.

Lemma foldl_flat_map_emits {A : Type} (step : A -> Aggregate -> Aggregate)
    (emits : A -> list (string * Evidence)) (l : list A) (a : Aggregate) :
  (forall x a, step x a = record_pairs (emits x) a) ->
  foldl (fun a x => step x a) a l = record_pairs (flat_map emits l) a.
Proof.
  intros H. revert a. induction l as [|x l IH]; intros a; simpl; [reflexivity|].
  now rewrite record_pairs_app, IH, H.
Qed.

Lemma aggregate_component_emits env rid k comp a :
  aggregate_component env rid k comp a
  = record_pairs (component_emits env rid k comp) a.
Proof.
  unfold aggregate_component, component_emits.
  rewrite flat_map_concat_map, <- (map_map _ (ident_emits _ _ _ _)),
    <- flat_map_concat_map.
  apply (foldl_flat_map_emits
           (fun ident a => aggregate_ident rid k _ (cat_by_key k) ident a)).
  intros x a'. apply aggregate_ident_emits.
Qed.

Lemma aggregate_reaction_emits env rid rxn a :
  aggregate_reaction env rid rxn a = record_pairs (reaction_emits env rid rxn) a.
Proof.
  unfold aggregate_reaction, reaction_emits.
  apply (foldl_flat_map_emits (fun slot a => aggregate_input env rid slot a)).
  intros slot a'. unfold aggregate_input.
  apply (foldl_flat_map_emits
           (fun comp a => aggregate_component env rid slot.1 comp a)).
  intros comp a''. apply aggregate_component_emits.
Qed.

Lemma aggregate_item_emits env item a :
  aggregate_item env item a = record_pairs (item_emits env item) a.
Proof.
  unfold aggregate_item, item_emits.
  destruct (negb _); [reflexivity|].
  destruct (_ && _); [|reflexivity].
  destruct (parse_proto _ _); [|reflexivity].
  apply aggregate_reaction_emits.
Qed.

Lemma aggregate_items_from env items a :
  foldl (fun a item => aggregate_item env item a) a items
  = record_pairs (items_emits env items) a.
Proof.
  unfold items_emits.
  apply (foldl_flat_map_emits (fun item a => aggregate_item env item a)).
  intros item a'. apply aggregate_item_emits.
Qed.

Lemma aggregate_items_emits env items :
  aggregate_items env items = record_pairs (items_emits env items) empty_aggregate.
Proof. apply aggregate_items_from. Qed.

Lemma raw_of_aggregate_items env items c :
  raw_of (aggregate_items env items) c = under c (items_emits env items).
Proof. now rewrite aggregate_items_emits, raw_of_record_pairs. Qed.

Lemma counts_of_aggregate_items env items c v :
  counts_of (aggregate_items env items) c v
  = occurrences v (under c (items_emits env items)).
Proof. now rewrite aggregate_items_emits, counts_of_record_pairs. Qed.

Lemma items_emits_app env l1 l2 :
  items_emits env (l1 ++ l2)%list
  = (items_emits env l1 ++ items_emits env l2)%list.
Proof. unfold items_emits. apply flat_map_app. Qed.

(** X1. Aggregating a list of fetched items that is the concatenation of
    two lists gives, for every category, the raw list of the first part
    followed by that of the second, and counts that are the sums; the
    counts therefore do not depend on the order of the two parts. *)
Theorem aggregate_items_app env l1 l2 :
  (forall c, raw_of (aggregate_items env (l1 ++ l2)) c
             = (raw_of (aggregate_items env l1) c
                ++ raw_of (aggregate_items env l2) c)%list)
  /\ (forall c v, counts_of (aggregate_items env (l1 ++ l2)) c v
                  = counts_of (aggregate_items env l1) c v
                    + counts_of (aggregate_items env l2) c v)
  /\ (forall c v, counts_of (aggregate_items env (l1 ++ l2)) c v
                  = counts_of (aggregate_items env (l2 ++ l1)) c v).
Proof.
  assert (Hc : forall la lb c v,
             counts_of (aggregate_items env (la ++ lb)) c v
             = counts_of (aggregate_items env la) c v
               + counts_of (aggregate_items env lb) c v).
  { intros la lb c v.
    now rewrite !counts_of_aggregate_items, items_emits_app, under_app,
      occurrences_app. }
  split; [|split].
  - intros c. now rewrite !raw_of_aggregate_items, items_emits_app, under_app.
  - apply Hc.
  - intros c v. rewrite !Hc. lia.
Qed.

(** X2. A fetched item without reaction id, or without payload, or whose
    payload does not decode, or any item when the decoder is not
    installed, contributes nothing: the aggregate is the one of the list
    without that item. *)
Theorem skipped_item_changes_nothing env l1 item l2 :
  truthy_opt (item_reaction_id item) = false
  \/ HAS_ORD env = false
  \/ truthy_opt (item_proto item) = false
  \/ parse_proto env (default "" (item_proto item)) = None ->
  aggregate_items env (l1 ++ item :: l2) = aggregate_items env (l1 ++ l2).
Proof.
  intros H. unfold aggregate_items. rewrite !foldl_app. simpl. f_equal.
  unfold aggregate_item.
  destruct H as [H | [H | [H | H]]]; rewrite ?H; simpl; try reflexivity.
  - destruct (negb _); [reflexivity|]. reflexivity.
  - destruct (negb _); [reflexivity|]. now rewrite andb_false_r.
  - destruct (negb _); [reflexivity|]. now destruct (_ && _).
Qed.

(** ** Where a recorded item comes from *)

Lemma under_In c e ps : In e (under c ps) <-> In (c, e) ps.
Proof.
  unfold under. rewrite in_map_iff. split.
  - intros ([c' e'] & <- & Hin). apply filter_In in Hin as [Hin Hc].
    simpl in Hc. apply String.eqb_eq in Hc. now subst.
  - intros Hin. exists (c, e). split; [reflexivity|].
    apply filter_In. split; [exact Hin | apply String.eqb_refl].
Qed.

Lemma cat_by_key_Some_cases k c :
  cat_by_key k = Some c ->
  truthy c = true
  /\ (INPUT_KEY_CATEGORY_MAP !! lower k = Some c
      \/ (c = k /\ fullmatch SLOT_RE k = true)).
Proof.
  unfold cat_by_key.
  destruct (INPUT_KEY_CATEGORY_MAP !! lower k) as [c0|] eqn:Hm; simpl.
  - rewrite (INPUT_KEY_CATEGORY_MAP_truthy _ _ Hm). simpl.
    intros [= <-]. split; [now apply INPUT_KEY_CATEGORY_MAP_truthy in Hm | now left].
  - destruct (fullmatch SLOT_RE k) eqn:Hf; [|discriminate].
    intros [= <-]. split; [|now right].
    destruct k; [discriminate Hf | reflexivity].
Qed.

Lemma In_if_single {A : Type} (b : bool) (x y : A) :
  In y (if b then [x] else []) -> b = true /\ x = y.
Proof. destruct b; simpl; [intros [-> | []]; auto | intros []]. Qed.

Lemma ident_emits_In rid k role ident cat e :
  In (cat, e) (ident_emits rid k role (cat_by_key k) ident) ->
  e = mkEvidence rid k role ident.1 ident.2 /\ justified cat e.
Proof.
  unfold ident_emits, justified.
  destruct (cat_by_key k) as [c|] eqn:Hk.
  - destruct (cat_by_key_Some_cases _ _ Hk) as [Ht _]. simpl. rewrite Ht. simpl.
    intros [[= <- <-] | []]. simpl. rewrite Hk. auto.
  - cbn [truthy_opt]. destruct (String.eqb_spec role "SOLVENT") as [-> | Hs].
    + simpl. intros [[= <- <-] | []]. simpl. rewrite Hk. auto.
    + destruct (in_tuple role ["CATALYST"]) eqn:Hc.
      * apply in_tuple_iff in Hc as [<- | []]. intros Hin.
        apply in_app_or in Hin as [Hin | Hin];
          apply In_if_single in Hin as [Ht Heq]; injection Heq as <- <-;
          simpl; rewrite Hk; auto 10.
      * destruct (in_tuple role ["REAGENT"; "REACTANT"]) eqn:Hr; [|simpl; intros []].
        apply in_tuple_iff in Hr. intros Hin.
        assert (Hrole : role = "REAGENT" \/ role = "REACTANT").
        { destruct Hr as [<- | [<- | []]]; auto. }
        unfold reagent_test.
        apply in_app_or in Hin as [Hin | Hin];
          [|apply in_app_or in Hin as [Hin | Hin]];
          apply In_if_single in Hin as [Ht Heq]; injection Heq as <- <-;
          simpl; rewrite Hk, Ht; simpl; rewrite ?orb_true_r; auto 10.
Qed.

Lemma items_emits_In env items cat e :
  In (cat, e) (items_emits env items) ->
  HAS_ORD env = true
  /\ truthy (ev_reaction_id e) = true
  /\ (exists item rxn,
        In item items
        /\ item_reaction_id item = Some (ev_reaction_id e)
        /\ parse_proto env (default "" (item_proto item)) = Some rxn
        /\ In (ev_input_key e) (map fst (inputs rxn)))
  /\ justified cat e.
Proof.
  unfold items_emits. rewrite in_flat_map. intros (item & Hitem & Hin).
  unfold item_emits in Hin.
  destruct (item_reaction_id item) as [rid|] eqn:Hrid; simpl in Hin; [|destruct Hin].
  destruct (truthy rid) eqn:Ht; simpl in Hin; [|destruct Hin].
  destruct (HAS_ORD env) eqn:Hord; simpl in Hin; [|destruct Hin].
  destruct (truthy_opt (item_proto item)); [|destruct Hin].
  destruct (parse_proto env _) as [rxn|] eqn:Hp; [|destruct Hin].
  unfold reaction_emits in Hin.
  apply in_flat_map in Hin as ([k inp] & Hslot & Hin).
  apply in_flat_map in Hin as (comp & Hcomp & Hin). simpl in Hin.
  unfold component_emits in Hin.
  apply in_flat_map in Hin as (ident & Hident & Hin).
  apply ident_emits_In in Hin as [-> Hj]. simpl.
  repeat split; auto.
  exists item, rxn. repeat split; auto.
  apply in_map_iff. now exists (k, inp).
Qed.

(** X3. Every item of a raw list can be traced: the decoder is
    installed; the item carries a non-empty reaction id, which is that of
    a fetched item whose payload decodes to a reaction with the item's
    input key among its slots; and the category it stands under is the
    one of its slot key or, when the slot has none, one that its role and
    the test of its value give. *)
Theorem recorded_evidence_is_justified env items cat e :
  In e (raw_of (aggregate_items env items) cat) ->
  HAS_ORD env = true
  /\ truthy (ev_reaction_id e) = true
  /\ (exists item rxn,
        In item items
        /\ item_reaction_id item = Some (ev_reaction_id e)
        /\ parse_proto env (default "" (item_proto item)) = Some rxn
        /\ In (ev_input_key e) (map fst (inputs rxn)))
  /\ justified cat e.
Proof.
  rewrite raw_of_aggregate_items, under_In. apply items_emits_In.
Qed.





Lemma occurrences_pos v l :
  1 <= occurrences v l <-> exists e, In e l /\ ev_value e = v.
Proof.
  unfold occurrences. split.
  - destruct (List.filter _ l) as [|e l'] eqn:Hf; simpl; [lia|]. intros _.
    assert (Hin : In e (List.filter (fun e => String.eqb (ev_value e) v) l))
      by (rewrite Hf; now left).
    apply filter_In in Hin as [Hin Hv]. apply String.eqb_eq in Hv. eauto.
  - intros (e & Hin & Hv).
    assert (Hin' : In e (List.filter (fun e => String.eqb (ev_value e) v) l)).
    { apply filter_In. split; [exact Hin | now apply String.eqb_eq]. }
    destruct (List.filter _ l); [destruct Hin' | simpl; lia].
Qed.

Lemma stored_counts_positive env items cat m v n :
  counts (aggregate_items env items) !! cat = Some m -> m !! v = Some n -> 1 <= n.
Proof.
  revert cat m v n.
  apply (aggregate_items_closed
           (fun a => forall cat m v n,
                counts a !! cat = Some m -> m !! v = Some n -> 1 <= n)).
  - intros c e a IH cat m v n. unfold record_evidence, incr. simpl.
    destruct (String.eqb_spec c cat) as [-> | Hne].
    + rewrite lookup_insert_eq. intros [= <-].
      destruct (String.eqb_spec (ev_value e) v) as [-> | Hv].
      * rewrite lookup_insert_eq. intros [= <-]. lia.
      * rewrite lookup_insert_ne by exact Hv.
        destruct (counts a !! cat) as [m0|] eqn:Hm; simpl.
        -- apply (IH cat m0 v n Hm).
        -- now rewrite lookup_empty.
    + rewrite lookup_insert_ne by exact Hne. apply IH.
  - intros cat m v n. simpl. now rewrite lookup_empty.
Qed.

(** X5. In the counts table of a category, a value has an entry exactly
    when some item of the category's raw list has that value, and every
    stored count is at least 1: the tables hold no zero entries. *)
Theorem counts_entries_are_raw_values env items cat v :
  (is_Some (default ∅ (counts (aggregate_items env items) !! cat) !! v)
   <-> exists e, In e (raw_of (aggregate_items env items) cat) /\ ev_value e = v)
  /\ (forall n, default ∅ (counts (aggregate_items env items) !! cat) !! v = Some n ->
                1 <= n /\ n = occurrences v (raw_of (aggregate_items env items) cat)).
Proof.
  set (a := aggregate_items env items).
  assert (Hlock : counts_of a cat v = occurrences v (raw_of a cat)).
  { apply (aggregate_items_closed lock_step).
    - intros c e a'. apply lock_step_record_evidence.
    - apply lock_step_empty. }
  assert (Hpos : forall n, default ∅ (counts a !! cat) !! v = Some n -> 1 <= n).
  { intros n. destruct (counts a !! cat) as [m|] eqn:Hm; simpl.
    - apply (stored_counts_positive env items cat m v n Hm).
    - now rewrite lookup_empty. }
  assert (Hval : forall n, default ∅ (counts a !! cat) !! v = Some n ->
                           n = occurrences v (raw_of a cat)).
  { intros n Hn. rewrite <- Hlock. unfold counts_of, count_of. now rewrite Hn. }
  split.
  - rewrite <- occurrences_pos. split.
    + intros [n Hn]. rewrite <- (Hval n Hn). now apply Hpos.
    + intros H. rewrite <- Hlock in H. unfold counts_of, count_of in H.
      destruct (default ∅ (counts a !! cat) !! v) as [n|]; [eauto | simpl in H; lia].
  - intros n Hn. split; [now apply Hpos | now apply Hval].
Qed.

End EmitsFacts.

(* ================================================================== *)
(** * Roles other than reagent and reactant *)
(* ================================================================== *)

Module RoleFacts.

Import Text Re Scraper ScraperRest TextFacts AggregateFacts SlotFacts EmitsFacts.

Lemma record_pairs_single_category c es a :
  record_pairs (map (pair c) es) a = record_all c es a.
Proof.
  unfold record_pairs, record_all. revert a.
  induction es as [|e es IH]; intros a; simpl; [reflexivity | apply IH].
Qed.

(** What the identifiers of a component emit when each identifier emits
    its own item under the categories that pass [test]. *)
Lemma under_component_emits env rid k comp (test : string -> string -> bool) c :
  (forall ty v,
      under c (ident_emits rid k
                 (_enum_name (ReactionRoleType_Name env) (reaction_role comp))
                 (cat_by_key k) (ty, v))
      = if test c v
        then [mkEvidence rid k
                (_enum_name (ReactionRoleType_Name env) (reaction_role comp)) ty v]
        else []) ->
  under c (component_emits env rid k comp)
  = List.filter (fun e => test c (ev_value e)) (component_evidence env rid k comp).
Proof.
  intros H. unfold component_emits, component_evidence.
  induction (identifiers comp) as [|ident ids IH]; simpl; [reflexivity|].
  rewrite under_app, IH, H.
  now destruct (test c (ident_value ident)).
Qed.

(** X6. In a slot without category, a component whose role is SOLVENT has
    every identifier recorded under Solvent, whatever its value: the
    Solvent raw list grows by all the component's items, in order, and
    no other category changes. *)
Theorem solvent_role_records_every_identifier env rid k comp a :
  cat_by_key k = None ->
  _enum_name (ReactionRoleType_Name env) (reaction_role comp) = "SOLVENT" ->
  aggregate_component env rid k comp a
  = record_all "Solvent" (component_evidence env rid k comp) a
  /\ (forall c, raw_of (aggregate_component env rid k comp a) c
                = (raw_of a c
                   ++ (if String.eqb c "Solvent"
                       then component_evidence env rid k comp else []))%list).
Proof.
  intros Hk Hrole.
  assert (E : aggregate_component env rid k comp a
              = record_all "Solvent" (component_evidence env rid k comp) a).
  { rewrite aggregate_component_emits, <- record_pairs_single_category. f_equal.
    unfold component_emits, component_evidence. rewrite Hk, Hrole.
    induction (identifiers comp) as [|ident ids IH]; simpl; [reflexivity|].
    now rewrite <- IH. }
  split; [exact E|]. intros c. rewrite E. apply raw_of_record_all.
Qed.

(** X7. In a slot without category, a component whose role is none of
    SOLVENT, CATALYST, REAGENT and REACTANT (a product, an unspecified
    role, a role number without name) leaves the aggregate as it was. *)
Theorem other_roles_record_nothing env rid k comp a :
  cat_by_key k = None ->
  ~ In (_enum_name (ReactionRoleType_Name env) (reaction_role comp))
       ["SOLVENT"; "CATALYST"; "REAGENT"; "REACTANT"] ->
  aggregate_component env rid k comp a = a.
Proof.
  intros Hk Hrole. rewrite aggregate_component_emits.
  unfold component_emits. rewrite Hk.
  set (role := _enum_name (ReactionRoleType_Name env) (reaction_role comp)) in *.
  assert (Hs : String.eqb role "SOLVENT" = false).
  { apply String.eqb_neq. intros E. apply Hrole. rewrite E. simpl. tauto. }
  assert (Hc : in_tuple role ["CATALYST"] = false).
  { destruct (in_tuple role ["CATALYST"]) eqn:E; [|reflexivity].
    apply in_tuple_iff in E. exfalso. apply Hrole. simpl in *. tauto. }
  assert (Hr : in_tuple role ["REAGENT"; "REACTANT"] = false).
  { destruct (in_tuple role ["REAGENT"; "REACTANT"]) eqn:E; [|reflexivity].
    apply in_tuple_iff in E. exfalso. apply Hrole. simpl in *. tauto. }
  induction (identifiers comp) as [|ident ids IH]; simpl; [reflexivity|].
  unfold ident_emits at 1. cbn [truthy_opt]. rewrite Hs, Hc, Hr. exact IH.
Qed.

Ltac split_catalyst c :=
  destruct (String.eqb c "Metal") eqn:?;
  destruct (String.eqb c "Ligand") eqn:?;
  try (exfalso;
       repeat match goal with
              | H : String.eqb _ _ = true |- _ => apply String.eqb_eq in H
              end;
       congruence).

Lemma under_ident_emits_catalyst rid k ty v c :
  under c (ident_emits rid k "CATALYST" None (ty, v))
  = if catalyst_test c v then [mkEvidence rid k "CATALYST" ty v] else [].
Proof.
  unfold ident_emits, catalyst_test. cbn [truthy_opt].
  change (String.eqb "CATALYST" "SOLVENT") with false.
  change (in_tuple "CATALYST" ["CATALYST"]) with true. cbv iota.
  cbn [snd fst].
  destruct (_is_metal_ident v) eqn:Hm; destruct (_is_ligand_ident v) eqn:Hl;
    cbn [app]; rewrite ?under_cons; cbn [fst snd];
    change (under c []) with (@nil Evidence);
    rewrite ?(String.eqb_sym _ c); split_catalyst c; reflexivity.
Qed.

(** X8. In a slot without category, a component whose role is CATALYST has
    the Metal and Ligand tests applied to each identifier independently:
    for every category the raw list grows by exactly the component's
    items whose value passes that category's test, and the counts by
    their occurrences; nothing is recorded under any other category. *)
Theorem catalyst_tests_are_independent env rid k comp a :
  cat_by_key k = None ->
  _enum_name (ReactionRoleType_Name env) (reaction_role comp) = "CATALYST" ->
  (forall c, raw_of (aggregate_component env rid k comp a) c
             = (raw_of a c
                ++ List.filter (fun e => catalyst_test c (ev_value e))
                     (component_evidence env rid k comp))%list)
  /\ (forall c v, counts_of (aggregate_component env rid k comp a) c v
                  = counts_of a c v
                    + occurrences v
                        (List.filter (fun e => catalyst_test c (ev_value e))
                           (component_evidence env rid k comp)))
  /\ (forall c, c <> "Metal" -> c <> "Ligand" ->
                raw_of (aggregate_component env rid k comp a) c = raw_of a c).
Proof.
  intros Hk Hrole.
  assert (Hu : forall c,
             under c (component_emits env rid k comp)
             = List.filter (fun e => catalyst_test c (ev_value e))
                 (component_evidence env rid k comp)).
  { intros c. apply under_component_emits. intros ty v.
    rewrite Hk, Hrole. apply under_ident_emits_catalyst. }
  split; [|split].
  - intros c. now rewrite aggregate_component_emits, raw_of_record_pairs, Hu.
  - intros c v. now rewrite aggregate_component_emits, counts_of_record_pairs, Hu.
  - intros c Hm Hl.
    rewrite aggregate_component_emits, raw_of_record_pairs, Hu.
    apply String.eqb_neq in Hm, Hl.
    unfold catalyst_test. rewrite Hm, Hl. simpl. clear Hu.
    induction (component_evidence env rid k comp) as [|e es IH]; simpl;
      [now rewrite app_nil_r | exact IH].
Qed.

End RoleFacts.

(* ================================================================== *)
(** * The identifier tests *)
(* ================================================================== *)

Module ClassifierFacts.

Import Text Re Scraper ScraperRest TextFacts ReFacts HtmlFacts.

Local Arguments String.append !s1 s2 : simpl nomatch.

Lemma append_assoc (a b c : string) : (a ++ b) ++ c = a ++ b ++ c.
Proof. induction a as [|x a IH]; simpl; [reflexivity | now rewrite IH]. Qed.













(** For a reagent or reactant label the classifier is the chain of
    keyword tests. *)
Lemma classify_reagent_chain name label :
  in_tuple (lower label) ["reagent"; "reactant"] = true ->
  _classify_from_text name label =
  if any_in BASE_KEYWORDS (lower name) then Some "Base"
  else if any_in AMINE_KEYWORDS (lower name) then Some "amine"
  else if any_in LIGAND_KEYWORDS (lower name) then Some "Ligand"
  else if any_in METAL_KEYWORDS (lower name) then Some "Metal"
  else if any_in ARYL_HALIDE_KEYWORDS (lower name)
          || (contains "br" (lower name) && contains "c" (lower name))
          || (contains "cl" (lower name) && contains "c" (lower name))
          || (contains "i" (lower name) && contains "c" (lower name))
  then Some "aryl halide"
  else None.
Proof.
  intros Hl. unfold _classify_from_text. rewrite Hl.
  destruct (reagent_label label Hl) as [-> | ->]; reflexivity.
Qed.

(** X10. The two paths agree on the keyword categories: when the text
    classifier, for a reagent or reactant label, answers Base, amine,
    Ligand or Metal, the structured test of that category passes on the
    same name.  For aryl halide this fails: the name "brc" is an aryl
    halide for the text classifier and not for the structured test. *)
Theorem text_classifier_agrees_with_ident_tests name label :
  in_tuple (lower label) ["reagent"; "reactant"] = true ->
  (_classify_from_text name label = Some "Base" -> _is_base_ident name = true)
  /\ (_classify_from_text name label = Some "amine" -> _is_amine_ident name = true)
  /\ (_classify_from_text name label = Some "Ligand" -> _is_ligand_ident name = true)
  /\ (_classify_from_text name label = Some "Metal" -> _is_metal_ident name = true)
  /\ (_classify_from_text "brc" label = Some "aryl halide"
      /\ _is_aryl_halide_ident "brc" = false).
Proof.
  intros Hl. rewrite !(classify_reagent_chain _ _ Hl).
  unfold _is_base_ident, _is_amine_ident, _is_ligand_ident, _is_metal_ident.
  destruct (any_in BASE_KEYWORDS (lower name));
    destruct (any_in AMINE_KEYWORDS (lower name));
    destruct (any_in LIGAND_KEYWORDS (lower name));
    destruct (any_in METAL_KEYWORDS (lower name));
    repeat split; try reflexivity; try discriminate;
    try (vm_compute; reflexivity);
    match goal with
    | |- context [if ?b then _ else _] => destruct b; discriminate
    end.
Qed.

End ClassifierFacts.

(* ================================================================== *)
(** * Stripping and the task id *)
(* ================================================================== *)

Module StripFacts.

Import Text Strip Scraper ScraperRest TextFacts ClassifierFacts.

Local Arguments String.append !s1 s2 : simpl nomatch.

Lemma lstrip_by_all p l : all_chars p l = true -> lstrip_by p l = "".
Proof.
  induction l as [|c l IH]; simpl; [reflexivity|].
  intros H. apply andb_true_iff in H as [-> H]. now apply IH.
Qed.

Lemma lstrip_by_prefix p l m :
  all_chars p l = true -> head_passes p m = false ->
  lstrip_by p (l ++ m) = m.
Proof.
  intros Hl Hm. induction l as [|c l IH]; simpl.
  - destruct m as [|x m]; simpl in *; [reflexivity | now rewrite Hm].
  - simpl in Hl. apply andb_true_iff in Hl as [-> Hl]. now apply IH.
Qed.

Lemma rstrip_by_all p r : all_chars p r = true -> rstrip_by p r = "".
Proof.
  induction r as [|c r IH]; simpl; [reflexivity|].
  intros H. apply andb_true_iff in H as [-> H]. now rewrite (IH H).
Qed.

Lemma last_passes_cons p c s :
  s <> "" -> last_passes p (String c s) = last_passes p s.
Proof. destruct s; [congruence | reflexivity]. Qed.

Lemma rstrip_by_suffix p m r :
  all_chars p r = true -> last_passes p m = false ->
  rstrip_by p (m ++ r) = m.
Proof.
  intros Hr. induction m as [|c m IH]; intros Hm.
  - now apply rstrip_by_all.
  - simpl. destruct m as [|x m].
    + simpl in *. rewrite (rstrip_by_all _ _ Hr), Hm. reflexivity.
    + rewrite last_passes_cons in Hm by discriminate.
      rewrite (IH Hm). now rewrite andb_false_r.
Qed.

Lemma head_passes_app p m r :
  m <> "" -> head_passes p (m ++ r) = head_passes p m.
Proof. destruct m; [congruence | reflexivity]. Qed.

(** Stripping removes exactly a surrounding of strippable characters. *)
Lemma strip_by_surrounded p l m r :
  all_chars p l = true -> all_chars p r = true ->
  head_passes p m = false -> last_passes p m = false ->
  strip_by p (l ++ m ++ r) = m.
Proof.
  intros Hl Hr Hh Ht. unfold strip_by. destruct m as [|c m].
  - assert (H : all_chars p (l ++ r) = true).
    { clear -Hl Hr. induction l as [|x l IH]; simpl in *; [exact Hr|].
      apply andb_true_iff in Hl as [-> Hl]. now apply IH. }
    simpl. now rewrite (lstrip_by_all _ _ H).
  - rewrite lstrip_by_prefix; [now apply rstrip_by_suffix | exact Hl | exact Hh].
Qed.

Lemma lstrip_by_head p s : head_passes p (lstrip_by p s) = false.
Proof.
  induction s as [|c s IH]; simpl; [reflexivity|].
  destruct (p c) eqn:Hc; [exact IH | simpl; exact Hc].
Qed.

Lemma rstrip_by_head p s :
  head_passes p s = false -> head_passes p (rstrip_by p s) = false.
Proof.
  destruct s as [|c s]; simpl; [reflexivity|]. intros H. rewrite H. simpl. exact H.
Qed.

Lemma rstrip_by_last p s : last_passes p (rstrip_by p s) = false.
Proof.
  induction s as [|c s IH]; simpl; [reflexivity|].
  destruct (String.eqb_spec (rstrip_by p s) "") as [E | E].
  - rewrite E in *. destruct (p c) eqn:Hc; simpl; [reflexivity | exact Hc].
  - rewrite andb_false_r. now rewrite last_passes_cons.
Qed.

Lemma strip_by_ends p s :
  head_passes p (strip_by p s) = false /\ last_passes p (strip_by p s) = false.
Proof.
  unfold strip_by. split.
  - apply rstrip_by_head, lstrip_by_head.
  - apply rstrip_by_last.
Qed.

Lemma strip_by_idem p s : strip_by p (strip_by p s) = strip_by p s.
Proof.
  destruct (strip_by_ends p s) as [Hh Ht].
  rewrite <- (append_empty_r (strip_by p s)) at 1.
  now apply (strip_by_surrounded p "" (strip_by p s) "").
Qed.

Lemma lstrip_by_all_chars p q s :
  all_chars q s = true -> all_chars q (lstrip_by p s) = true.
Proof.
  induction s as [|c s IH]; simpl; [reflexivity|]. intros H.
  destruct (p c); [|exact H]. apply andb_true_iff in H as [_ H]. now apply IH.
Qed.

Lemma rstrip_by_all_chars p q s :
  all_chars q s = true -> all_chars q (rstrip_by p s) = true.
Proof.
  induction s as [|c s IH]; simpl; [reflexivity|]. intros H.
  apply andb_true_iff in H as [Hc H].
  destruct (p c && _); simpl; [reflexivity | now rewrite Hc, IH].
Qed.

Lemma strip_by_all_chars p q s :
  all_chars q s = true -> all_chars q (strip_by p s) = true.
Proof. intros H. now apply rstrip_by_all_chars, lstrip_by_all_chars. Qed.

Lemma lstrip_by_suffix_of p s : exists l, s = l ++ lstrip_by p s.
Proof.
  induction s as [|c s [l IH]]; simpl; [now exists ""|].
  destruct (p c); [|now exists ""].
  exists (String c l). simpl. now rewrite <- IH.
Qed.

Lemma rstrip_by_prefix_of p s : exists r, s = rstrip_by p s ++ r.
Proof.
  induction s as [|c s [r IH]]; simpl; [now exists ""|].
  destruct (p c && _); [now exists (String c s)|].
  exists r. simpl. now rewrite <- IH.
Qed.

Lemma strip_by_substring p s : exists l r, s = l ++ strip_by p s ++ r.
Proof.
  unfold strip_by. destruct (lstrip_by_suffix_of p s) as [l Hl].
  destruct (rstrip_by_prefix_of p (lstrip_by p s)) as [r Hr].
  exists l, r. now rewrite <- Hr.
Qed.


End StripFacts.

(* ================================================================== *)
(** * The HTML extractor as a whole *)
(* ================================================================== *)

Module ExtractorFacts.

Import Text Re Strip Scraper ScraperRest.
Import TextFacts ReFacts HtmlFacts ClassifierFacts StripFacts.

Local Arguments String.append !s1 s2 : simpl nomatch.

(** ** Rows *)

Lemma pick_name_Some cells v :
  _pick_name_from_cells cells = Some v ->
  In v cells /\ truthy v = true /\ fullmatch NUMERIC_RE v = false
  /\ in_tuple (lower v) PICK_LABELS = false.
Proof.
  induction cells as [|x cells IH]; cbn [_pick_name_from_cells]; [discriminate|].
  destruct (truthy x) eqn:Ht; cbn [negb];
    [|intros H; apply IH in H; simpl; tauto].
  destruct (fullmatch NUMERIC_RE x) eqn:Hn;
    [intros H; apply IH in H; simpl; tauto|].
  destruct (in_tuple (lower x) PICK_LABELS) eqn:Hl;
    [intros H; apply IH in H; simpl; tauto|].
  intros [= <-]. simpl. auto.
Qed.

Lemma pick_name_None cells :
  _pick_name_from_cells cells = None <->
  forall v, In v cells ->
            truthy v = false \/ fullmatch NUMERIC_RE v = true
            \/ in_tuple (lower v) PICK_LABELS = true.
Proof.
  induction cells as [|x cells IH]; cbn [_pick_name_from_cells].
  - split; [intros _ v [] | reflexivity].
  - destruct (truthy x) eqn:Ht; cbn [negb].
    + destruct (fullmatch NUMERIC_RE x) eqn:Hn.
      * rewrite IH. split; intros H v; [intros [<- | Hv]; auto | intros Hv; apply H; now right].
      * destruct (in_tuple (lower x) PICK_LABELS) eqn:Hl.
        -- rewrite IH. split; intros H v; [intros [<- | Hv]; auto | intros Hv; apply H; now right].
        -- split; [discriminate|]. intros H.
           destruct (H x (or_introl eq_refl)) as [E | [E | E]]; congruence.
    + rewrite IH. split; intros H v; [intros [<- | Hv]; auto | intros Hv; apply H; now right].
Qed.

Lemma row_label_Some cells label :
  row_label cells = Some label ->
  In label cells /\ in_tuple (lower label) ROW_LABELS = true.
Proof.
  unfold row_label. intros H. apply find_some in H as [Hin Hl].
  split; [now apply in_rev | exact Hl].
Qed.

Lemma row_label_None cells :
  row_label cells = None <->
  forall v, In v cells -> in_tuple (lower v) ROW_LABELS = false.
Proof.
  unfold row_label. split.
  - intros H v Hv. apply (find_none _ _ H). now apply in_rev in Hv.
  - intros H. destruct (List.find _ (rev cells)) as [v|] eqn:Hf; [|reflexivity].
    apply find_some in Hf as [Hin Hl]. apply in_rev in Hin.
    rewrite (H v Hin) in Hl. discriminate.
Qed.

Lemma classify_from_text_range name label cat :
  _classify_from_text name label = Some cat ->
  In cat HTML_CATEGORIES /\ in_tuple (lower label) ROW_LABELS = true.
Proof.
  unfold _classify_from_text.
  destruct (String.eqb_spec (lower label) "solvent") as [-> | _];
    [intros [= <-]; simpl; split; [tauto | reflexivity]|].
  destruct (String.eqb_spec (lower label) "ligand") as [-> | _];
    [intros [= <-]; simpl; split; [tauto | reflexivity]|].
  destruct (String.eqb_spec (lower label) "metal") as [-> | _];
    [intros [= <-]; simpl; split; [tauto | reflexivity]|].
  destruct (String.eqb_spec (lower label) "base") as [-> | _];
    [intros [= <-]; simpl; split; [tauto | reflexivity]|].
  destruct (in_tuple (lower label) ["reagent"; "reactant"]) eqn:Hl; [|discriminate].
  intros H. split.
  - repeat match type of H with
           | (if ?b then _ else _) = _ => destruct b
           end; try discriminate H; injection H as <-; simpl; tauto.
  - apply reagent_label in Hl as [-> | ->]; reflexivity.
Qed.

(** X12. What a table row records can be traced in the row: the name is
    not empty and the category is one of the six of the HTML path; the
    row has a label cell, which is the last cell that reads as a role
    label, and the category is what the text classifier gives for the
    name under that label; the name is a cell other than the last one
    that is neither numeric nor a role label, or else no such cell
    exists and the name is the text of the row's first link. *)
Theorem row_evidence_is_traceable r cat name :
  row_evidence r = Some (cat, name) ->
  truthy name = true
  /\ In cat HTML_CATEGORIES
  /\ (exists label,
        row_label (row_cells r) = Some label
        /\ In label (row_cells r)
        /\ _classify_from_text name label = Some cat)
  /\ ((In name (all_but_last (row_cells r))
       /\ fullmatch NUMERIC_RE name = false
       /\ in_tuple (lower name) PICK_LABELS = false)
      \/ (_pick_name_from_cells (all_but_last (row_cells r)) = None
          /\ row_link r = Some name)).
Proof.
  unfold row_evidence.
  destruct (row_cells r) as [|c0 cells] eqn:Hcells; [discriminate|].
  rewrite <- Hcells.
  destruct (row_label (row_cells r)) as [label|] eqn:Hlab;
    cbn [truthy_opt negb]; [|discriminate].
  destruct (truthy label); cbn [negb default from_option id]; [|discriminate].
  destruct (row_name r) as [nm|] eqn:Hname; cbn [default from_option id].
  - destruct (_classify_from_text nm label) as [c|] eqn:Hc;
      cbv beta iota; [|discriminate].
    destruct (truthy c); cbn [andb truthy_opt]; [|discriminate].
    destruct (truthy nm) eqn:Ht; [|discriminate].
    intros [= <- <-]. split; [exact Ht|].
    split; [now apply classify_from_text_range in Hc|].
    split.
    + exists label. repeat split; auto. now apply row_label_Some in Hlab.
    + unfold row_name in Hname.
      destruct (_pick_name_from_cells (all_but_last (row_cells r))) as [v|] eqn:Hp.
      * destruct (pick_name_Some _ _ Hp) as (Hin & Hv & Hn & Hl).
        cbn [truthy_opt] in Hname. rewrite Hv in Hname. cbn [negb] in Hname.
        injection Hname as <-. left. auto.
      * cbn [truthy_opt negb] in Hname. right. auto.
  - destruct (_classify_from_text "" label) as [c|];
      cbv beta iota; [|discriminate].
    cbn [truthy_opt]. rewrite andb_false_r. discriminate.
Qed.

(** X13. A row none of whose cells reads as a role label records nothing,
    whatever its cells and its link; so does a row without cells. *)
Theorem row_without_label_records_nothing r :
  (forall v, In v (row_cells r) -> in_tuple (lower v) ROW_LABELS = false) ->
  row_evidence r = None.
Proof.
  intros H. apply row_label_None in H. unfold row_evidence.
  rewrite H. now destruct (row_cells r).
Qed.

(** ** Counting emitted pairs *)

Definition record_names (ps : list (string * string))
    (out : gmap string (gmap string nat)) : gmap string (gmap string nat) :=
  foldl (fun out p => incr p.1 p.2 out) out ps.

Lemma record_names_app ps1 ps2 out :
  record_names (ps1 ++ ps2)%list out = record_names ps2 (record_names ps1 out).
Proof. unfold record_names. apply foldl_app. Qed.

Lemma tally_app c n ps1 ps2 :
  tally c n (ps1 ++ ps2)%list = tally c n ps1 + tally c n ps2.
Proof. unfold tally. now rewrite List.filter_app, length_app. Qed.

Lemma tally_cons c n p ps :
  tally c n (p :: ps)
  = (if String.eqb p.1 c && String.eqb p.2 n then 1 else 0) + tally c n ps.
Proof. unfold tally. simpl. now destruct (String.eqb p.1 c && String.eqb p.2 n). Qed.

Lemma tally_pos c n ps : 1 <= tally c n ps <-> In (c, n) ps.
Proof.
  induction ps as [|[c' n'] ps IH].
  - unfold tally. simpl. split; [lia | intros []].
  - rewrite tally_cons. cbn [fst snd]. simpl In. rewrite <- IH.
    destruct (String.eqb_spec c' c) as [-> | Hc];
      [destruct (String.eqb_spec n' n) as [-> | Hn]|]; cbn [andb].
    + split; [intros _; now left | intros _; lia].
    + split; [intros H; right; exact H | intros [Heq | H]; [congruence | exact H]].
    + split; [intros H; right; exact H | intros [Heq | H]; [congruence | exact H]].
Qed.

Lemma count_of_record_names ps out c n :
  count_of (record_names ps out) c n = count_of out c n + tally c n ps.
Proof.
  revert out. induction ps as [|p ps IH]; intros out.
  - unfold tally. simpl. lia.
  - change (record_names (p :: ps) out)
      with (record_names ps (incr p.1 p.2 out)).
    rewrite IH, AggregateFacts.count_of_incr, tally_cons.
    rewrite (String.eqb_sym c p.1). lia.
Qed.

Lemma rows_from_emits rows out :
  foldl (fun out r =>
           match row_evidence r with
           | Some (cat, name) => incr cat name out
           | None => out
           end) out rows
  = record_names (rows_emits rows) out.
Proof.
  revert out. induction rows as [|r rows IH]; intros out; simpl; [reflexivity|].
  unfold rows_emits. simpl. rewrite record_names_app. fold (rows_emits rows).
  rewrite IH. now destruct (row_evidence r) as [[c n]|].
Qed.

Lemma groups_from_emits c gs out :
  foldl (fun out raw => foldl (fun out p => incr c p out) out (parts_of raw)) out gs
  = record_names (map (pair c) (flat_map parts_of gs)) out.
Proof.
  revert out. induction gs as [|g gs IH]; intros out; simpl; [reflexivity|].
  rewrite map_app, record_names_app, IH. f_equal.
  generalize (parts_of g). intros ps. revert out.
  induction ps as [|p ps IHp]; intros out; simpl; [reflexivity | apply IHp].
Qed.

Lemma free_text_pass_emits text out :
  free_text_pass text out = record_names (text_emits text) out.
Proof.
  unfold free_text_pass, text_emits, TEXT_LABELS, label_names.
  cbn [foldl flat_map fst snd]. rewrite !groups_from_emits, app_nil_r.
  now rewrite !record_names_app.
Qed.

(** X14. The two passes of [extract_components] add up: the count of a
    (category, name) pair is the number of table rows that give this pair
    plus the number of times the free-text pass reads it; a name seen by
    both passes, or twice by one, is counted each time. *)
Theorem extract_components_counts_add doc c n :
  count_of (extract_components doc) c n
  = tally c n (rows_emits (doc_rows doc)) + tally c n (text_emits (doc_text doc))
  /\ count_of (extract_components doc) c n
     = count_of (extract_components_rows (doc_rows doc)) c n
       + count_of (free_text_pass (doc_text doc) ∅) c n
  /\ (forall rows1 rows2,
        count_of (extract_components_rows (rows1 ++ rows2)) c n
        = count_of (extract_components_rows rows1) c n
          + count_of (extract_components_rows rows2) c n).
Proof.
  assert (Hrows : forall rows,
             count_of (extract_components_rows rows) c n
             = tally c n (rows_emits rows)).
  { intros rows. unfold extract_components_rows.
    now rewrite rows_from_emits, count_of_record_names. }
  assert (Htext : forall text out,
             count_of (free_text_pass text out) c n
             = count_of out c n + tally c n (text_emits text)).
  { intros text out. now rewrite free_text_pass_emits, count_of_record_names. }
  unfold extract_components. rewrite !Htext, !Hrows.
  split; [reflexivity|]. split; [reflexivity|].
  intros rows1 rows2. rewrite !Hrows. unfold rows_emits.
  now rewrite flat_map_app, tally_app.
Qed.

(** ** The free-text pass *)

Definition substring_of (g s : string) : Prop := exists x y, s = x ++ g ++ y.

Lemma substring_of_refl s : substring_of s s.
Proof. exists "", "". simpl. now rewrite append_empty_r. Qed.

Lemma substring_of_cons g c s : substring_of g s -> substring_of g (String c s).
Proof. intros (x & y & ->). now exists (String c x), y. Qed.

Lemma substring_of_trans a b c :
  substring_of a b -> substring_of b c -> substring_of a c.
Proof.
  intros (x & y & ->) (x' & y' & ->).
  exists (x' ++ x), (y ++ y'). now rewrite !append_assoc.
Qed.

Lemma substring_of_prefix g y : substring_of g (g ++ y).
Proof. now exists "", y. Qed.

Lemma substring_of_suffix l g : substring_of g (l ++ g).
Proof. exists l, "". now rewrite append_empty_r. Qed.

Lemma all_chars_and p q s :
  all_chars (fun c => p c && q c) s = all_chars p s && all_chars q s.
Proof.
  induction s as [|c s IH]; simpl; [reflexivity|]. rewrite IH.
  destruct (p c), (q c), (all_chars p s), (all_chars q s); reflexivity.
Qed.

Lemma all_chars_app p a b :
  all_chars p (a ++ b) = all_chars p a && all_chars p b.
Proof.
  induction a as [|c a IH]; simpl; [reflexivity|]. now rewrite IH, andb_assoc.
Qed.

Lemma take_while_all p s : all_chars p (take_while p s) = true.
Proof.
  induction s as [|c s IH]; simpl; [reflexivity|].
  destruct (p c) eqn:Hc; simpl; [now rewrite Hc | reflexivity].
Qed.

Lemma take_while_prefix p s : exists y, s = take_while p s ++ y.
Proof.
  induction s as [|c s [y IH]]; simpl; [now exists ""|].
  destruct (p c); [|now exists (String c s)].
  exists y. simpl. now rewrite <- IH.
Qed.

(** What is known of a captured group. *)
Definition good_group (g s : string) : Prop :=
  g <> "" /\ all_chars group_char g = true /\ substring_of g s.

Lemma good_group_cons g c s : good_group g s -> good_group g (String c s).
Proof. intros (H1 & H2 & H3). repeat split; auto. now apply substring_of_cons. Qed.

Lemma good_group_suffix g l s : good_group g s -> good_group g (l ++ s).
Proof.
  intros (H1 & H2 & H3). repeat split; auto.
  apply (substring_of_trans _ _ _ H3), substring_of_suffix.
Qed.

Lemma group_at_Some s g n : group_at s = Some (g, n) -> good_group g s.
Proof.
  unfold group_at.
  destruct (String.eqb_spec (take_while group_char s) "") as [E | E]; [discriminate|].
  intros [= <- <-]. repeat split; [exact E | apply take_while_all |].
  destruct (take_while_prefix group_char s) as [y Hy].
  rewrite Hy at 2. apply substring_of_prefix.
Qed.

Lemma after_colon_Some s g n : after_colon s = Some (g, n) -> good_group g s.
Proof.
  revert n. induction s as [|c s IH]; intros n; cbn [after_colon].
  - apply group_at_Some.
  - destruct (is_space c); [|apply group_at_Some].
    destruct (after_colon s) as [[g' n']|]; [|apply group_at_Some].
    intros [= <- <-]. apply good_group_cons. now apply (IH n').
Qed.

Lemma colon_at_Some s g n : colon_at s = Some (g, n) -> good_group g s.
Proof.
  unfold colon_at. destruct s as [|c s]; [discriminate|].
  destruct (Ascii.eqb_spec c ":") as [-> | Hc].
  - destruct (after_colon s) as [[g' n']|] eqn:Ha; [|discriminate].
    intros [= <- <-]. apply good_group_cons. now apply after_colon_Some in Ha.
  - destruct c as [[] [] [] [] [] [] [] []]; try discriminate. now contradict Hc.
Qed.

Lemma before_colon_Some s g n : before_colon s = Some (g, n) -> good_group g s.
Proof.
  revert n. induction s as [|c s IH]; intros n; cbn [before_colon].
  - apply colon_at_Some.
  - destruct (is_space c); [|apply colon_at_Some].
    destruct (before_colon s) as [[g' n']|]; [|apply colon_at_Some].
    intros [= <- <-]. apply good_group_cons. now apply (IH n').
Qed.

Lemma strip_prefix_ci_suffix lab s rest :
  strip_prefix_ci lab s = Some rest -> exists l, s = l ++ rest.
Proof.
  revert s. induction lab as [|a lab IH]; intros s; simpl.
  - intros [= <-]. now exists "".
  - destruct s as [|b s]; [discriminate|].
    destruct (Ascii.eqb _ _); [|discriminate].
    intros H. apply IH in H as [l ->]. now exists (String b l).
Qed.

Lemma label_match_at_Some lab s g n :
  label_match_at lab s = Some (g, n) -> good_group g s.
Proof.
  unfold label_match_at.
  destruct (strip_prefix_ci lab s) as [rest|] eqn:Hp; [|discriminate].
  destruct (before_colon rest) as [[g' n']|] eqn:Hb; [|discriminate].
  intros [= <- <-]. apply strip_prefix_ci_suffix in Hp as [l ->].
  apply good_group_suffix. now apply before_colon_Some in Hb.
Qed.

Lemma label_groups_from_In k lab s g :
  In g (label_groups_from k lab s) -> good_group g s.
Proof.
  revert k. induction s as [|c s IH]; intros k; cbn [label_groups_from]; [intros []|].
  destruct k as [|k].
  - destruct (label_match_at lab (String c s)) as [[g' n]|] eqn:Hm.
    + intros [<- | Hin].
      * now apply label_match_at_Some in Hm.
      * apply good_group_cons. now apply (IH (Nat.pred n)).
    + intros Hin. apply good_group_cons. now apply (IH 0).
  - intros Hin. apply good_group_cons. now apply (IH k).
Qed.

Lemma split_from_shape b s :
  exists p ps, split_from b s = p :: ps /\ (b = false -> exists y, s = p ++ y).
Proof.
  revert b. induction s as [|c s IH]; intros b; cbn [split_from].
  - exists "", []. split; [reflexivity | now exists ""].
  - destruct (b && is_space c) eqn:Hb.
    + destruct (IH true) as (p & ps & E & _). exists p, ps.
      split; [exact E|]. intros ->. discriminate.
    + destruct (is_sep c).
      * exists "", (split_from true s). split; [reflexivity | now exists (String c s)].
      * destruct (IH false) as (p & ps & E & Hy). rewrite E. simpl.
        exists (String c p), ps. split; [reflexivity|].
        intros _. destruct (Hy eq_refl) as [y ->]. now exists y.
Qed.

Lemma split_from_In b s p :
  In p (split_from b s) ->
  all_chars (fun c => negb (is_sep c)) p = true
  /\ (forall q, all_chars q s = true -> all_chars q p = true)
  /\ substring_of p s.
Proof.
  revert b p. induction s as [|c s IH]; intros b p; cbn [split_from].
  - intros [<- | []]. repeat split; auto. apply substring_of_refl.
  - destruct (b && is_space c).
    + intros Hin. apply IH in Hin as (H1 & H2 & H3).
      repeat split; auto.
      * intros q Hq. simpl in Hq. apply andb_true_iff in Hq as [_ Hq]. auto.
      * now apply substring_of_cons.
    + destruct (is_sep c) eqn:Hsep.
      * intros [<- | Hin].
        -- repeat split; auto. now exists "", (String c s).
        -- apply IH in Hin as (H1 & H2 & H3). repeat split; auto.
           ++ intros q Hq. simpl in Hq. apply andb_true_iff in Hq as [_ Hq]. auto.
           ++ now apply substring_of_cons.
      * destruct (split_from_shape false s) as (p1 & ps & E & Hy).
        destruct (Hy eq_refl) as [y Hs].
        assert (Hp1 : In p1 (split_from false s)) by (rewrite E; now left).
        rewrite E. simpl. intros [<- | Hin].
        -- apply IH in Hp1 as (H1 & H2 & _). repeat split.
           ++ cbn [all_chars]. rewrite Hsep. exact H1.
           ++ intros q Hq. cbn [all_chars] in *.
              apply andb_true_iff in Hq as [Hc Hq]. rewrite Hc. simpl. auto.
           ++ exists "", y. simpl. now rewrite <- Hs.
        -- assert (Hp : In p (split_from false s)) by (rewrite E; now right).
           apply IH in Hp as (H1 & H2 & H3). repeat split; auto.
           ++ intros q Hq. simpl in Hq. apply andb_true_iff in Hq as [_ Hq]. auto.
           ++ now apply substring_of_cons.
Qed.

Lemma parts_of_In raw n :
  In n (parts_of raw) ->
  truthy n = true /\ strip n = n
  /\ all_chars (fun c => negb (is_sep c)) n = true
  /\ (forall q, all_chars q raw = true -> all_chars q n = true)
  /\ substring_of n raw.
Proof.
  unfold parts_of. rewrite in_map_iff. intros (p & <- & Hin).
  apply filter_In in Hin as [Hin Ht].
  apply split_from_In in Hin as (H1 & H2 & H3).
  split; [exact Ht|]. split; [apply strip_by_idem|].
  split; [now apply strip_by_all_chars|].
  split; [intros q Hq; now apply strip_by_all_chars, H2|].
  apply (fun H => substring_of_trans _ _ _ H H3).
  destruct (strip_by_substring is_space p) as (l & r & E).
  now exists l, r.
Qed.

Lemma text_emits_In text c n :
  In (c, n) (text_emits text) ->
  In c ["Base"; "Solvent"; "Ligand"; "Metal"]
  /\ truthy n = true /\ strip n = n
  /\ all_chars (fun ch => group_char ch && negb (is_sep ch)) n = true
  /\ substring_of n text.
Proof.
  unfold text_emits. rewrite in_flat_map. intros ([lab c'] & Hlab & Hin).
  apply in_map_iff in Hin as (n' & [= <- <-] & Hin). cbn [fst snd] in *.
  split.
  { unfold TEXT_LABELS in Hlab. simpl in Hlab.
    destruct Hlab as [[= _ <-] | [[= _ <-] | [[= _ <-] | [[= _ <-] | []]]]];
      simpl; tauto. }
  unfold label_names in Hin. apply in_flat_map in Hin as (g & Hg & Hin).
  apply label_groups_from_In in Hg as (_ & Hall & Hsub).
  apply parts_of_In in Hin as (Ht & Hs & Hsep & Hq & Hsub').
  repeat split; auto.
  - rewrite all_chars_and, (Hq _ Hall), Hsep. reflexivity.
  - exact (substring_of_trans _ _ _ Hsub' Hsub).
Qed.


Lemma row_evidence_Some_range r c n :
  row_evidence r = Some (c, n) -> In c HTML_CATEGORIES /\ truthy n = true.
Proof.
  unfold row_evidence. destruct (row_cells r); [discriminate|].
  destruct (negb _); [discriminate|].
  destruct (_classify_from_text _ _) as [c'|] eqn:Hc; [|discriminate].
  destruct (truthy c'); cbn [andb]; [|discriminate].
  destruct (row_name r) as [nm|]; cbn [truthy_opt default from_option id] in *;
    [|discriminate].
  destruct (truthy nm) eqn:Ht; [|discriminate].
  intros [= <- <-]. split; [|exact Ht].
  now apply classify_from_text_range in Hc.
Qed.

(** X16. Whatever the document, every entry of the table that
    [extract_components] returns is under one of Solvent, Ligand, Metal,
    Base, amine and aryl halide and has a non-empty name, and it stems
    from a table row or from the free text. *)
Theorem extract_components_entries doc c n :
  1 <= count_of (extract_components doc) c n ->
  In c HTML_CATEGORIES
  /\ truthy n = true
  /\ ((exists r, In r (doc_rows doc) /\ row_evidence r = Some (c, n))
      \/ In (c, n) (text_emits (doc_text doc))).
Proof.
  unfold extract_components, extract_components_rows.
  rewrite free_text_pass_emits, rows_from_emits, !count_of_record_names.
  change (count_of ∅ c n) with 0. rewrite Nat.add_0_l. intros H.
  assert (Hcases : In (c, n) (rows_emits (doc_rows doc))
                   \/ In (c, n) (text_emits (doc_text doc))).
  { destruct (tally c n (rows_emits (doc_rows doc))) eqn:E.
    - right. apply tally_pos. lia.
    - left. apply tally_pos. lia. }
  destruct Hcases as [Hr | Ht].
  - unfold rows_emits in Hr. apply in_flat_map in Hr as (r & Hin & Hr).
    destruct (row_evidence r) as [p|] eqn:Hev; [|destruct Hr].
    destruct Hr as [-> | []].
    destruct (row_evidence_Some_range _ _ _ Hev) as [Hc Hn].
    repeat split; auto. left. eauto.
  - destruct (text_emits_In _ _ _ Ht) as (Hc & Hn & _).
    repeat split; auto. simpl in *. tauto.
Qed.

End ExtractorFacts.

(* ================================================================== *)
(** * The scanners against their patterns *)
(* ================================================================== *)

Module ScannerFacts.

Import Text Re Strip Scraper ScraperRest.
Import TextFacts ReFacts ClassifierFacts StripFacts ExtractorFacts.

Local Arguments String.append !s1 s2 : simpl nomatch.

(** Bring both sides of an equation of concatenations to the same
    bracketing. *)
Ltac str_assoc :=
  repeat (progress (rewrite ?append_assoc; cbn [String.append]));
  try reflexivity.

Lemma Matches_Set p s :
  Matches (Set_ p) s <-> exists c, s = String c "" /\ p c = true.
Proof.
  split.
  - intros H. inversion H; subst. eauto.
  - intros (c & -> & Hc). now constructor.
Qed.

Lemma Matches_Star_all p w :
  Matches (Star (Set_ p)) w <-> all_chars p w = true.
Proof.
  split.
  - intros H. remember (Star (Set_ p)) as r eqn:Hr.
    induction H; try discriminate; [reflexivity|].
    injection Hr as ->. rewrite all_chars_app, IHMatches2 by reflexivity.
    apply Matches_Set in H as (c & -> & Hc). simpl. now rewrite Hc.
  - induction w as [|c w IH]; simpl; [constructor|].
    intros H. apply andb_true_iff in H as [Hc Hw].
    change (String c w) with (String c "" ++ w).
    constructor; [now constructor | now apply IH].
Qed.

Lemma Matches_plus_all p w :
  Matches (plus (Set_ p)) w <-> w <> "" /\ all_chars p w = true.
Proof.
  unfold plus. rewrite Matches_Cat. split.
  - intros (s1 & s2 & -> & H1 & H2). apply Matches_Set in H1 as (c & -> & Hc).
    apply Matches_Star_all in H2. simpl. rewrite Hc, H2. split; [discriminate | reflexivity].
  - intros [Hne H]. destruct w as [|c w]; [congruence|].
    simpl in H. apply andb_true_iff in H as [Hc Hw].
    exists (String c ""), w. repeat split; [now constructor | now apply Matches_Star_all].
Qed.

Lemma Matches_chr c s : Matches (chr c) s <-> s = String c "".
Proof.
  unfold chr. split.
  - intros H. apply Matches_Set in H as (x & -> & Hx).
    apply Ascii.eqb_eq in Hx. now subst.
  - intros ->. constructor. apply Ascii.eqb_refl.
Qed.



Lemma take_while_maximal p s :
  exists y, s = take_while p s ++ y /\ head_passes p y = false.
Proof.
  induction s as [|c s (y & IH & Hy)]; simpl; [now exists ""|].
  destruct (p c) eqn:Hc.
  - exists y. simpl. now rewrite <- IH.
  - exists (String c s). split; [reflexivity | exact Hc].
Qed.













(** ** Dataset ids in URLs *)

Lemma strip_prefix_sound pre s rest :
  strip_prefix pre s = Some rest -> s = pre ++ rest.
Proof.
  revert s. induction pre as [|a pre IH]; intros s; simpl.
  - now intros [= <-].
  - destruct s as [|b s]; [discriminate|].
    destruct (Ascii.eqb_spec a b) as [-> | _]; [|discriminate].
    intros H. now rewrite (IH _ H).
Qed.

Lemma strip_prefix_complete pre rest : strip_prefix pre (pre ++ rest) = Some rest.
Proof.
  induction pre as [|a pre IH]; simpl; [reflexivity|].
  now rewrite Ascii.eqb_refl.
Qed.

Lemma Matches_lit s m : Matches (lit s) m <-> m = s.
Proof.
  revert m. induction s as [|c s IH]; intros m; simpl.
  - apply Matches_Eps.
  - rewrite Matches_Cat. split.
    + intros (s1 & s2 & -> & H1 & H2). apply Matches_chr in H1 as ->.
      apply IH in H2 as ->. reflexivity.
    + intros ->. exists (String c ""), s. repeat split; [now apply Matches_chr | now apply IH].
Qed.

Lemma DATASET_ID_RE_shape m :
  Matches DATASET_ID_RE m <->
  exists run, m = "ord_dataset-" ++ run /\ run <> "" /\ all_chars is_alnum run = true.
Proof.
  unfold DATASET_ID_RE. rewrite Matches_Cat. split.
  - intros (s1 & s2 & -> & H1 & H2). apply Matches_lit in H1 as ->.
    apply Matches_plus_all in H2. now exists s2.
  - intros (run & -> & H). exists "ord_dataset-", run.
    repeat split; [now apply Matches_lit | now apply Matches_plus_all].
Qed.

Lemma take_while_all_prefix p run rest :
  all_chars p run = true -> head_passes p rest = false ->
  take_while p (run ++ rest) = run.
Proof.
  intros Hr Hh. induction run as [|c run IH]; simpl.
  - destruct rest as [|x rest]; simpl in *; [reflexivity | now rewrite Hh].
  - simpl in Hr. apply andb_true_iff in Hr as [-> Hr]. now rewrite IH.
Qed.

Lemma dataset_id_at_id run :
  run <> "" -> all_chars is_alnum run = true ->
  dataset_id_at ("ord_dataset-" ++ run) = Some ("ord_dataset-" ++ run).
Proof.
  intros Hne Hall. unfold dataset_id_at. rewrite strip_prefix_complete.
  assert (E : take_while is_alnum run = run).
  { rewrite <- (append_empty_r run) at 1.
    now apply take_while_all_prefix. }
  rewrite E. apply String.eqb_neq in Hne. now rewrite Hne.
Qed.

Lemma dataset_id_at_Some u id :
  dataset_id_at u = Some id ->
  Matches DATASET_ID_RE id
  /\ (exists rest, u = id ++ rest /\ head_passes is_alnum rest = false)
  /\ dataset_id_at id = Some id.
Proof.
  unfold dataset_id_at.
  destruct (strip_prefix "ord_dataset-" u) as [t|] eqn:Hp; [|discriminate].
  apply strip_prefix_sound in Hp as ->.
  destruct (String.eqb_spec (take_while is_alnum t) "") as [E | E]; [discriminate|].
  intros [= <-]. destruct (take_while_maximal is_alnum t) as (y & Hy & Hh).
  split; [|split].
  - apply DATASET_ID_RE_shape. exists (take_while is_alnum t).
    repeat split; [exact E | apply take_while_all].
  - exists y. split; [|exact Hh]. rewrite Hy at 1. str_assoc.
  - apply dataset_id_at_id; [exact E | apply take_while_all].
Qed.

Lemma dataset_id_at_complete m rest :
  Matches DATASET_ID_RE m -> is_Some (dataset_id_at (m ++ rest)).
Proof.
  intros H. apply DATASET_ID_RE_shape in H as (run & -> & Hne & Hall).
  unfold dataset_id_at. rewrite append_assoc, strip_prefix_complete.
  destruct run as [|c run]; [congruence|].
  simpl in *. apply andb_true_iff in Hall as [-> _]. simpl. eauto.
Qed.

(** X18. The dataset id taken from a URL is an occurrence in the URL of
    [ord_dataset-] followed by one or more letters or digits, with no
    letter or digit right after it; taking the id of that id gives it
    back; and no id is found exactly when the URL contains no such
    occurrence. *)
Theorem dataset_id_in_follows_the_pattern u :
  (forall id, dataset_id_in u = Some id ->
     Matches DATASET_ID_RE id
     /\ (exists a rest, u = a ++ id ++ rest /\ head_passes is_alnum rest = false)
     /\ dataset_id_in id = Some id)
  /\ (dataset_id_in u = None <-> search DATASET_ID_RE u = false).
Proof.
  split.
  - induction u as [|c u IH]; intros id; cbn [dataset_id_in].
    + destruct (dataset_id_at "") eqn:E; [|discriminate]. discriminate E.
    + destruct (dataset_id_at (String c u)) as [id'|] eqn:E.
      * intros [= <-]. apply dataset_id_at_Some in E as (Hm & (rest & Hu & Hh) & Hid).
        split; [exact Hm|]. split; [now exists "", rest|].
        destruct id' as [|x t]; cbn [dataset_id_in]; now rewrite Hid.
      * intros H. apply IH in H as (Hm & (a & rest & -> & Hh) & Hid).
        split; [exact Hm|]. split; [now exists (String c a), rest | exact Hid].
  - split.
    + intros H. destruct (search DATASET_ID_RE u) eqn:Hs; [|reflexivity].
      apply search_iff in Hs as (a & m & rest & -> & Hm). exfalso.
      clear -H Hm. induction a as [|x a IH]; simpl in H.
      * destruct (dataset_id_at_complete m rest Hm) as [id E].
        destruct (m ++ rest); cbn [dataset_id_in] in H; rewrite E in H; discriminate.
      * cbn [dataset_id_in] in H.
        destruct (dataset_id_at (String x (a ++ m ++ rest))); [discriminate | auto].
    + intros H. destruct (dataset_id_in u) as [id|] eqn:E; [|reflexivity].
      exfalso. assert (Hs : search DATASET_ID_RE u = true); [|congruence].
      clear H. revert id E. induction u as [|c u IH]; intros id; cbn [dataset_id_in].
      * destruct (dataset_id_at "") eqn:E; [discriminate E | discriminate].
      * destruct (dataset_id_at (String c u)) as [id'|] eqn:E.
        -- intros _. apply dataset_id_at_Some in E as (Hm & (rest & Hu & _) & _).
           apply search_iff. exists "", id', rest. now rewrite Hu.
        -- intros H. apply IH in H. apply search_iff in H as (a & m & rest & -> & Hm).
           apply search_iff. now exists (String c a), m, rest.
Qed.

End ScannerFacts.

(* ================================================================== *)
(** * The poll loop: outcomes and sleeps *)
(* ================================================================== *)

Module PollFacts.

Import Text Scraper ScraperRest OrchestratorFacts.

(** A not-ready response. *)
Definition not_ready (st : PollStep) : bool :=
  match st with
  | GetReturns r _ => (status_code r =? 202)%Z
  | GetRaises _ => false
  end.

Lemma fetch_query_result_step tid t st rest :
  waiting t st = true ->
  fetch_query_result tid t (st :: rest) = fetch_query_result tid t rest.
Proof.
  intros H. apply (fetch_query_result_waiting tid t [st] rest).
  simpl. now rewrite H.
Qed.

Lemma fetch_query_result_decides tid t st rest :
  waiting t st = false ->
  exists o, fetch_query_result tid t (st :: rest) = (Some o, rest)
            /\ (forall p, o = Returned p ->
                  exists r el, st = GetReturns r el /\ status_code r = 200%Z
                               /\ json r = Returned p).
Proof.
  destruct st as [e | r el]; simpl.
  - intros _. eexists. split; [reflexivity | discriminate].
  - destruct (Z.eqb_spec (status_code r) 200) as [E | _].
    + intros _. eexists. split; [reflexivity|]. intros p Hp. eauto.
    + destruct (Z.eqb_spec (status_code r) 202) as [E | _]; simpl.
      * intros ->. simpl. eexists. split; [reflexivity | discriminate].
      * intros _. destruct (status_code r =? 404)%Z;
          eexists; (split; [reflexivity | discriminate]).
Qed.

(** X19. The first round that is not an in-time not-ready response decides
    the call, and what follows it in the script is left unread; until
    then the loop is still polling.  A payload is returned only as the
    body of a response with status 200. *)
Theorem poll_loop_is_decided_by_first_other_round tid t script :
  (fst (fetch_query_result tid t script) = None
   <-> forallb (waiting t) script = true)
  /\ (forall o rest,
        fetch_query_result tid t script = (Some o, rest) ->
        exists pre st,
          script = (pre ++ st :: rest)%list
          /\ forallb (waiting t) pre = true /\ waiting t st = false
          /\ (forall p, o = Returned p ->
                exists r el, st = GetReturns r el /\ status_code r = 200%Z
                             /\ json r = Returned p)).
Proof.
  split.
  - induction script as [|st script IH]; [simpl; tauto|].
    cbn [forallb]. destruct (waiting t st) eqn:Hw.
    + rewrite (fetch_query_result_step _ _ _ _ Hw). exact IH.
    + destruct (fetch_query_result_decides tid t st script Hw) as (o & -> & _).
      simpl. split; discriminate.
  - induction script as [|st script IH]; intros o rest; [discriminate|].
    destruct (waiting t st) eqn:Hw.
    + rewrite (fetch_query_result_step _ _ _ _ Hw). intros H.
      apply IH in H as (pre & st' & -> & Hpre & Hst & Hp).
      exists (st :: pre), st'. simpl. rewrite Hw, Hpre. auto.
    + destruct (fetch_query_result_decides tid t st script Hw) as (o' & -> & Hp).
      intros [= <- <-]. exists [], st. auto.
Qed.

(** ** The sleeps *)

Lemma next_delay_bounds d :
  (1 # 2 <= d)%Q -> (d <= 5)%Q ->
  (1 # 2 <= next_delay d)%Q /\ (next_delay d <= 5)%Q /\ (d <= next_delay d)%Q.
Proof.
  intros Hlo Hhi. unfold next_delay. cbv zeta.
  destruct (Qle_bool 5 (d * (3 # 2))) eqn:E.
  - repeat split; lra.
  - assert (H : ~ (5 <= d * (3 # 2))%Q).
    { intros H. apply Qle_bool_iff in H. congruence. }
    repeat split; lra.
Qed.

Lemma delay_at_bounds n :
  (1 # 2 <= delay_at n)%Q /\ (delay_at n <= 5)%Q
  /\ (delay_at n <= delay_at (S n))%Q.
Proof.
  assert (H : (1 # 2 <= delay_at n)%Q /\ (delay_at n <= 5)%Q).
  { induction n as [|n [IH1 IH2]]; simpl; [split; lra|].
    destruct (next_delay_bounds _ IH1 IH2) as (H1 & H2 & _). auto. }
  destruct H as [H1 H2]. repeat split; auto.
  simpl. now apply next_delay_bounds.
Qed.

Lemma delay_at_cap n : 6 <= n -> delay_at n = 5%Q.
Proof.
  induction 1 as [|n _ IH]; [vm_compute; reflexivity|].
  simpl. rewrite IH. reflexivity.
Qed.

Lemma poll_from tid t k script :
  exists m consumed rest res,
    poll tid t (delay_at k) script = (res, map delay_at (seq k m), rest)
    /\ fetch_query_result tid t script = (res, rest)
    /\ script = (consumed ++ rest)%list
    /\ m = length (List.filter not_ready consumed).
Proof.
  revert k. induction script as [|st script IH]; intros k.
  - exists 0, [], [], None. simpl. auto.
  - destruct st as [e | r el].
    + exists 0, [GetRaises e], script, (Some (Raised e)). simpl. auto.
    + cbn [poll fetch_query_result].
      destruct (Z.eqb_spec (status_code r) 200) as [E200 | _].
      { exists 0, [GetReturns r el], script, (Some (json r)).
        simpl. rewrite E200. simpl. auto. }
      destruct (Z.eqb_spec (status_code r) 202) as [E202 | N202].
      * destruct (negb (Qle_bool el (inject_Z t))).
        -- eexists 1, [GetReturns r el], script, _.
           simpl. rewrite E202. simpl. auto.
        -- destruct (IH (S k)) as (m & consumed & rest & res & Hp & Hf & Hs & Hm).
           exists (S m), (GetReturns r el :: consumed), rest, res.
           change (delay_at (S k)) with (next_delay (delay_at k)) in Hp.
           rewrite Hp, Hf. simpl. rewrite E202. simpl.
           repeat split; try congruence.
      * apply Z.eqb_neq in N202.
        destruct (status_code r =? 404)%Z;
          eexists 0, [GetReturns r el], script, _;
          simpl; rewrite N202; simpl; auto.
Qed.

(** X20. The sleeps of the poll loop follow a fixed schedule that does not
    depend on what is received.  The loop sleeps once for every not-ready
    response it receives, the one that runs into the timeout included;
    the n-th sleep lasts 0.5 multiplied n times by 1.5 and capped at 5
    seconds, so the sleeps never shrink, stay between 0.5 and 5, and are
    5 from the seventh on; apart from the sleeps the loop is the one
    without them. *)
Theorem poll_loop_sleeps tid t script :
  (exists consumed rest res,
      fetch_query_result_sleeps tid t script
      = (res, map delay_at (seq 0 (length (List.filter not_ready consumed))), rest)
      /\ fetch_query_result tid t script = (res, rest)
      /\ script = (consumed ++ rest)%list)
  /\ (forall n, (1 # 2 <= delay_at n)%Q /\ (delay_at n <= 5)%Q
                /\ (delay_at n <= delay_at (S n))%Q)
  /\ (forall n, 6 <= n -> delay_at n = 5%Q)
  /\ map delay_at (seq 0 7)
     = [(1 # 2)%Q; (3 # 4)%Q; (9 # 8)%Q; (27 # 16)%Q; (81 # 32)%Q; (243 # 64)%Q; 5%Q].
Proof.
  split; [|split; [|split]].
  - destruct (poll_from tid t 0 script) as (m & consumed & rest & res & Hp & Hf & Hs & ->).
    exists consumed, rest, res. auto.
  - apply delay_at_bounds.
  - apply delay_at_cap.
  - vm_compute. reflexivity.
Qed.

End PollFacts.

(* ================================================================== *)
(** * The result of a run *)
(* ================================================================== *)

Module MainFacts.

Import Text Re Strip Scraper ScraperRest.
Import TextFacts ReFacts AggregateFacts OrchestratorFacts ScannerFacts.

Lemma last_returned_snoc d l t :
  last_returned d (l ++ [t])%list
  = match t.2 with
    | Returned items => if String.eqb t.1 d then Some items else last_returned d l
    | Raised _ => last_returned d l
    end.
Proof. unfold last_returned. now rewrite foldl_app. Qed.

Lemma main_loop_lookup env args targets d :
  main_loop env args targets !! d
  = (fun items => filter_output args (aggregate_items env items))
      <$> last_returned d targets.
Proof.
  induction targets as [|t l IH] using rev_ind; [apply lookup_empty|].
  rewrite main_loop_app, last_returned_snoc. simpl.
  rewrite main_step_lookup. destruct (t.2); [|exact IH].
  destruct (String.eqb t.1 d); [reflexivity | exact IH].
Qed.

Lemma last_returned_Some d targets items :
  last_returned d targets = Some items -> In (d, Returned items) targets.
Proof.
  induction targets as [|t l IH] using rev_ind; [discriminate|].
  rewrite last_returned_snoc, in_app_iff. destruct t as [d' [items'|e]]; simpl.
  - destruct (String.eqb_spec d' d) as [-> | _].
    + intros [= ->]. right. now left.
    + intros H. left. now apply IH.
  - intros H. left. now apply IH.
Qed.

Lemma last_returned_None d targets :
  last_returned d targets = None <->
  forall items, ~ In (d, Returned items) targets.
Proof.
  induction targets as [|t l IH] using rev_ind.
  - split; [intros _ items [] | reflexivity].
  - rewrite last_returned_snoc. destruct t as [d' [items'|e]]; simpl.
    + destruct (String.eqb_spec d' d) as [-> | Hne].
      * split; [discriminate|]. intros H. exfalso. apply (H items').
        apply in_app_iff. right. now left.
      * rewrite IH. split; intros H items Hin.
        -- apply in_app_iff in Hin as [Hin | [[= ? ?] | []]]; [now apply (H items) | congruence].
        -- apply (H items). apply in_app_iff. now left.
    + rewrite IH. split; intros H items Hin.
      * apply in_app_iff in Hin as [Hin | [[= ? ?] | []]]. now apply (H items).
      * apply (H items). apply in_app_iff. now left.
Qed.

(** X21. The result of a run holds, for each dataset id, the filtered
    aggregate of the records fetched by the last iteration for that id
    that returned; an id is a key of the result exactly when some
    iteration for it returned, and every key is one of the target ids. *)
Theorem main_loop_result env args targets d :
  main_loop env args targets !! d
  = (fun items => filter_output args (aggregate_items env items))
      <$> last_returned d targets
  /\ (is_Some (main_loop env args targets !! d)
      <-> exists items, In (d, Returned items) targets)
  /\ (is_Some (main_loop env args targets !! d) -> In d (target_ids targets)).
Proof.
  assert (Hdom : is_Some (main_loop env args targets !! d)
                 <-> exists items, In (d, Returned items) targets).
  { rewrite main_loop_lookup. split.
    - intros [out H]. destruct (last_returned d targets) as [items|] eqn:E;
        [|discriminate]. apply last_returned_Some in E. eauto.
    - intros [items Hin]. destruct (last_returned d targets) as [items'|] eqn:E;
        [simpl; eauto|]. exfalso.
      apply (proj1 (last_returned_None d targets) E items Hin). }
  split; [apply main_loop_lookup|]. split; [exact Hdom|].
  intros H. apply Hdom in H as [items Hin].
  unfold target_ids. apply in_map_iff. now exists (d, Returned items).
Qed.

(** ** What the filters leave of the invariant *)

Lemma occurrences_filter_le v p l :
  occurrences v (List.filter p l) <= occurrences v l.
Proof.
  unfold occurrences. induction l as [|e l IH]; simpl; [lia|].
  destruct (p e); simpl; destruct (String.eqb (ev_value e) v); simpl; lia.
Qed.

Lemma lock_step_aggregate_items env items : lock_step (aggregate_items env items).
Proof.
  apply (aggregate_items_closed lock_step).
  - intros c e a. apply lock_step_record_evidence.
  - apply lock_step_empty.
Qed.

Lemma filter_output_base args data cat v :
  base_only args = true ->
  counts_of (filter_output args data) cat v
  = (if String.eqb cat "Base" then counts_of data "Base" v else 0)
  /\ raw_of (filter_output args data) cat
     = (if String.eqb cat "Base"
        then List.filter (fun x => negb (smiles_only args) || is_smiles x)
               (raw_of data "Base")
        else []).
Proof.
  intros Hb. unfold filter_output. rewrite Hb.
  unfold counts_of, count_of, raw_of. simpl.
  destruct (String.eqb_spec cat "Base") as [-> | Hne].
  - now rewrite !lookup_singleton_eq.
  - rewrite !lookup_singleton_ne by congruence. simpl. now rewrite lookup_empty.
Qed.

Lemma filter_output_bound args data :
  lock_step data ->
  (forall cat v, occurrences v (raw_of (filter_output args data) cat)
                 <= counts_of (filter_output args data) cat v)
  /\ (smiles_only args = false -> lock_step (filter_output args data)).
Proof.
  intros Hlock. destruct (base_only args) eqn:Hb.
  - split.
    + intros cat v. destruct (filter_output_base args data cat v Hb) as [-> ->].
      destruct (String.eqb cat "Base").
      * rewrite Hlock. apply occurrences_filter_le.
      * unfold occurrences. simpl. lia.
    + intros Hs cat v. destruct (filter_output_base args data cat v Hb) as [-> ->].
      rewrite Hs. simpl. rewrite filter_all.
      destruct (String.eqb cat "Base"); [apply Hlock | reflexivity].
  - unfold filter_output. rewrite Hb. destruct (smiles_only args) eqn:Hs.
    + split; [|discriminate]. intros cat v.
      unfold counts_of, raw_of. simpl. rewrite lookup_fmap.
      fold (counts_of data cat v). rewrite Hlock. unfold raw_of.
      destruct (raw data !! cat); simpl; [apply occurrences_filter_le | lia].
    + split; [|intros _; exact Hlock]. intros cat v. now rewrite Hlock.
Qed.

(** X22. In every aggregate that a run stores, the raw list of a category
    never holds more items of a value than the counts table says: the
    count is an upper bound after the SMILES filter and the exact number
    without it.  With the Base filter the stored aggregate has the single
    category Base in both tables, also when the dataset had no Base
    evidence. *)
Theorem stored_counts_bound_raw env args targets d out :
  main_loop env args targets !! d = Some out ->
  (forall cat v, occurrences v (raw_of out cat) <= counts_of out cat v)
  /\ (smiles_only args = false -> lock_step out)
  /\ (base_only args = true ->
      dom (counts out) = {[ "Base" ]} /\ dom (raw out) = {[ "Base" ]}).
Proof.
  rewrite main_loop_lookup.
  destruct (last_returned d targets) as [items|]; [|discriminate].
  intros [= <-].
  destruct (filter_output_bound args (aggregate_items env items)
              (lock_step_aggregate_items env items)) as [H1 H2].
  split; [exact H1|]. split; [exact H2|].
  intros Hb. unfold filter_output. rewrite Hb. simpl.
  now rewrite !dom_singleton_L.
Qed.

(** ** The target ids *)





End MainFacts.

(* ================================================================== *)
(** * [shout] on strings *)
(* ================================================================== *)

Module ShoutFacts.

Import Text Strip StringUtils StringUtilsFacts.







End ShoutFacts.

(* ================================================================== *)
(** * More concrete runs *)
(* ================================================================== *)

Module MoreRuns.

Import Text Re Strip Scraper ScraperRest Samples.
Import EmitsFacts RoleFacts ClassifierFacts StripFacts ExtractorFacts MainFacts.

(** X2 on an item whose payload does not decode. *)
Lemma skipped_item_run :
  (truthy_opt (item_reaction_id (mkItem (Some "ord-2") (Some "????"))) = false
   \/ HAS_ORD sample_env = false
   \/ truthy_opt (item_proto (mkItem (Some "ord-2") (Some "????"))) = false
   \/ parse_proto sample_env
        (default "" (item_proto (mkItem (Some "ord-2") (Some "????")))) = None)
  /\ aggregate_items sample_env
       ([mkItem (Some "ord-1") (Some "cnhu")]
        ++ mkItem (Some "ord-2") (Some "????") :: [mkItem (Some "ord-3") (Some "cnhu")])
     = aggregate_items sample_env
         ([mkItem (Some "ord-1") (Some "cnhu")] ++ [mkItem (Some "ord-3") (Some "cnhu")]).
Proof.
  assert (H : truthy_opt (item_reaction_id (mkItem (Some "ord-2") (Some "????"))) = false
              \/ HAS_ORD sample_env = false
              \/ truthy_opt (item_proto (mkItem (Some "ord-2") (Some "????"))) = false
              \/ parse_proto sample_env
                   (default "" (item_proto (mkItem (Some "ord-2") (Some "????")))) = None)
    by (right; right; right; reflexivity).
  split; [exact H|].
  exact (skipped_item_changes_nothing sample_env _ _ _ H).
Defined.

Definition sample_base_item : Evidence :=
  mkEvidence "ord-1" "reagents" "REAGENT" "NAME" "triethylamine".

(** X3 on the triethylamine item of the sample dataset. *)
Lemma recorded_evidence_run :
  In sample_base_item (raw_of (aggregate_items sample_env sample_items) "Base")
  /\ justified "Base" sample_base_item.
Proof.
  assert (H : In sample_base_item
                (raw_of (aggregate_items sample_env sample_items) "Base"))
    by (vm_compute; left; reflexivity).
  split; [exact H|].
  exact (proj2 (proj2 (proj2
           (recorded_evidence_is_justified sample_env sample_items "Base" _ H)))).
Defined.


(** X6 on a solvent named "THF". *)
Lemma solvent_role_run :
  cat_by_key "reagents" = None
  /\ _enum_name (ReactionRoleType_Name sample_env)
       (reaction_role (mkCompound 3 [mkIdent 6 "THF"])) = "SOLVENT"
  /\ aggregate_component sample_env "ord-1" "reagents"
       (mkCompound 3 [mkIdent 6 "THF"]) empty_aggregate
     = record_all "Solvent"
         (component_evidence sample_env "ord-1" "reagents"
            (mkCompound 3 [mkIdent 6 "THF"])) empty_aggregate.
Proof.
  assert (Hk : cat_by_key "reagents" = None) by (vm_compute; reflexivity).
  split; [exact Hk|]. split; [reflexivity|].
  exact (proj1 (solvent_role_records_every_identifier sample_env "ord-1" "reagents"
                  (mkCompound 3 [mkIdent 6 "THF"]) empty_aggregate Hk eq_refl)).
Defined.

Lemma sample_role_8_is_other :
  ~ In (_enum_name (ReactionRoleType_Name sample_env)
          (reaction_role (mkCompound 8 [mkIdent 6 "biphenyl"])))
       ["SOLVENT"; "CATALYST"; "REAGENT"; "REACTANT"].
Proof.
  vm_compute. intros H.
  repeat (destruct H as [H | H]; [discriminate H|]). exact H.
Defined.

(** X7 on a component whose role number 8 has no name in the sample
    schema. *)
Lemma other_roles_run :
  cat_by_key "reagents" = None
  /\ ~ In (_enum_name (ReactionRoleType_Name sample_env)
             (reaction_role (mkCompound 8 [mkIdent 6 "biphenyl"])))
          ["SOLVENT"; "CATALYST"; "REAGENT"; "REACTANT"]
  /\ aggregate_component sample_env "ord-1" "reagents"
       (mkCompound 8 [mkIdent 6 "biphenyl"]) empty_aggregate
     = empty_aggregate.
Proof.
  assert (Hk : cat_by_key "reagents" = None) by (vm_compute; reflexivity).
  split; [exact Hk|]. split; [exact sample_role_8_is_other|].
  exact (other_roles_record_nothing sample_env "ord-1" "reagents"
           (mkCompound 8 [mkIdent 6 "biphenyl"]) empty_aggregate Hk
           sample_role_8_is_other).
Defined.

(** X8 on a catalyst that is both a metal and a ligand for the tests. *)
Lemma catalyst_tests_run :
  cat_by_key "reagents" = None
  /\ _enum_name (ReactionRoleType_Name sample_env)
       (reaction_role (mkCompound 4 [mkIdent 6 "Pd(dppf)Cl2"])) = "CATALYST"
  /\ map ev_value
       (raw_of (aggregate_component sample_env "ord-1" "reagents"
                  (mkCompound 4 [mkIdent 6 "Pd(dppf)Cl2"]) empty_aggregate) "Metal")
     = ["Pd(dppf)Cl2"]
  /\ map ev_value
       (raw_of (aggregate_component sample_env "ord-1" "reagents"
                  (mkCompound 4 [mkIdent 6 "Pd(dppf)Cl2"]) empty_aggregate) "Ligand")
     = ["Pd(dppf)Cl2"].
Proof.
  assert (Hk : cat_by_key "reagents" = None) by (vm_compute; reflexivity).
  split; [exact Hk|]. split; [reflexivity|].
  destruct (catalyst_tests_are_independent sample_env "ord-1" "reagents"
              (mkCompound 4 [mkIdent 6 "Pd(dppf)Cl2"]) empty_aggregate Hk eq_refl)
    as (Hraw & _).
  split.
  - rewrite (Hraw "Metal"). vm_compute. reflexivity.
  - rewrite (Hraw "Ligand"). vm_compute. reflexivity.
Defined.

(** X10 on the name "Triethylamine". *)
Lemma text_classifier_agreement_run :
  in_tuple (lower "Reagent") ["reagent"; "reactant"] = true
  /\ _classify_from_text "Triethylamine" "Reagent" = Some "Base"
  /\ _is_base_ident "Triethylamine" = true.
Proof.
  assert (Hl : in_tuple (lower "Reagent") ["reagent"; "reactant"] = true)
    by (vm_compute; reflexivity).
  assert (Hc : _classify_from_text "Triethylamine" "Reagent" = Some "Base")
    by (vm_compute; reflexivity).
  split; [exact Hl|]. split; [exact Hc|].
  exact (proj1 (text_classifier_agrees_with_ident_tests "Triethylamine" "Reagent" Hl) Hc).
Defined.


(** X12 on the row ["1.0", "K2CO3", "Reagent"]. *)
Lemma row_evidence_run :
  row_evidence (mkRow ["1.0"; "K2CO3"; "Reagent"] None) = Some ("Base", "K2CO3")
  /\ truthy "K2CO3" = true
  /\ In "Base" HTML_CATEGORIES.
Proof.
  assert (H : row_evidence (mkRow ["1.0"; "K2CO3"; "Reagent"] None)
              = Some ("Base", "K2CO3")) by (vm_compute; reflexivity).
  split; [exact H|].
  destruct (row_evidence_is_traceable _ _ _ H) as (H1 & H2 & _).
  split; [exact H1 | exact H2].
Defined.

Lemma sample_row_has_no_label :
  forall v, In v (row_cells (mkRow ["50%"; "Pd(OAc)2"; "Catalyst"] None)) ->
            in_tuple (lower v) ROW_LABELS = false.
Proof. intros v [<- | [<- | [<- | []]]]; reflexivity. Defined.

(** X13 on the row ["50%", "Pd(OAc)2", "Catalyst"], whose last cell is
    not one of the six labels. *)
Lemma row_without_label_run :
  (forall v, In v (row_cells (mkRow ["50%"; "Pd(OAc)2"; "Catalyst"] None)) ->
             in_tuple (lower v) ROW_LABELS = false)
  /\ row_evidence (mkRow ["50%"; "Pd(OAc)2"; "Catalyst"] None) = None.
Proof.
  split; [exact sample_row_has_no_label|].
  exact (row_without_label_records_nothing _ sample_row_has_no_label).
Defined.


Definition sample_document : Document :=
  mkDocument [mkRow ["1.0"; "K2CO3"; "Reagent"] None; mkRow ["THF"; "Solvent"] None]
             "Base : K2CO3, Cs2CO3 Catalyst: Pd(OAc)2".

(** X16 on a document whose table and text both name K2CO3. *)
Lemma extract_components_run :
  1 <= count_of (extract_components sample_document) "Base" "K2CO3"
  /\ count_of (extract_components sample_document) "Base" "K2CO3" = 2
  /\ In "Base" HTML_CATEGORIES.
Proof.
  assert (H : 1 <= count_of (extract_components sample_document) "Base" "K2CO3")
    by (vm_compute; repeat constructor).
  split; [exact H|]. split; [vm_compute; reflexivity|].
  exact (proj1 (extract_components_entries _ _ _ H)).
Defined.

(** X22 on a run with the SMILES filter. *)
Lemma stored_counts_run :
  main_loop sample_env (mkArgs false true)
    [("ord_dataset-a", Returned sample_items)] !! "ord_dataset-a"
  = Some (filter_output (mkArgs false true) (aggregate_items sample_env sample_items))
  /\ occurrences "triethylamine"
       (raw_of (filter_output (mkArgs false true)
                  (aggregate_items sample_env sample_items)) "Base")
     <= counts_of (filter_output (mkArgs false true)
                     (aggregate_items sample_env sample_items)) "Base" "triethylamine".
Proof.
  assert (H : main_loop sample_env (mkArgs false true)
                [("ord_dataset-a", Returned sample_items)] !! "ord_dataset-a"
              = Some (filter_output (mkArgs false true)
                        (aggregate_items sample_env sample_items)))
    by (vm_compute; reflexivity).
  split; [exact H|].
  exact (proj1 (stored_counts_bound_raw sample_env (mkArgs false true) _ _ _ H)
           "Base" "triethylamine").
Defined.

End MoreRuns.
